(** * utem-fileage-app: edades decimales e histograma concurrente

    Shallow embedding of [edad::fecha_a_dias], [edad::parsear_fecha_iso],
    [edad::calcular] (Edad.cpp) and of the two [main] pipelines
    (main.cpp: lock-free queue + concurrent map; the OpenMP-task variant:
    atomic array), with the properties of the specification. *)

From Stdlib Require Import ZArith Lia Bool List Ascii String.
From Stdlib Require Import Floats Uint63.
From stdpp Require Import base option list gmap.

Open Scope Z_scope.

(** ** Machine integers

    [unsigned] is 32 bits and wraps modulo 2^32.  [int] and [long long] are
    normalised in two's complement: C++ leaves signed overflow undefined, the
    model wraps as the usual targets do, and every theorem about values
    carries the range in which no signed operation overflows. *)

Module Entero.

Definition u32 (z : Z) : Z := z mod 2 ^ 32.

Definition s_wrap (w : Z) (z : Z) : Z :=
  (z + 2 ^ (w - 1)) mod 2 ^ w - 2 ^ (w - 1).

Definition i32 : Z -> Z := s_wrap 32.
Definition i64 : Z -> Z := s_wrap 64.

Definition en_u32 (z : Z) : Prop := 0 <= z < 2 ^ 32.
Definition en_i32 (z : Z) : Prop := - 2 ^ 31 <= z < 2 ^ 31.
Definition en_i64 (z : Z) : Prop := - 2 ^ 63 <= z < 2 ^ 63.

Definition b2z (b : bool) : Z := if b then 1 else 0.

End Entero.
Import Entero.

(** ** Edad.cpp: [edad::fecha_a_dias] *)

(** [long long fecha_a_dias(long long anio, unsigned mes, unsigned dia)].
    [/] on [long long] truncates ([Z.quot]); on [unsigned] operands
    truncation and floor coincide ([Z.div]).  In [mes + (mes > 2 ? -3 : 9)]
    the [int] branch is converted to [unsigned], so the sum wraps. *)
Definition fecha_a_dias (anio mes dia : Z) : Z :=
  let anio := i64 (anio - b2z (mes <=? 2)) in
  let era := Z.quot (if anio >=? 0 then anio else i64 (anio - 399)) 400 in
  let anio_era := u32 (i64 (anio - i64 (era * 400))) in
  let dia_anio :=
    u32 (u32 (u32 (u32 (153 * u32 (mes + (if mes >? 2 then -3 else 9))) + 2) / 5
              + dia) - 1) in
  let dias_era :=
    u32 (u32 (u32 (u32 (anio_era * 365) + anio_era / 4) - anio_era / 100)
         + dia_anio) in
  i64 (i64 (i64 (era * 146097) + dias_era) - 719468).

(** C6. [fecha_a_dias(-1, 3, 1) - fecha_a_dias(-1, 2, 28) = 1]: year -1 is
    not a leap year, so 1 March follows 28 February; the companion equation
    shows the leap year -4, where 29 February lies in between. *)
Theorem fecha_a_dias_anio_negativo :
  fecha_a_dias (-1) 3 1 - fecha_a_dias (-1) 2 28 = 1 /\
  fecha_a_dias (-4) 3 1 - fecha_a_dias (-4) 2 28 = 2.
Proof. split; vm_compute; reflexivity. Qed.

Definition DIAS_PROMEDIO_ANIO : float := 0x1.6d3e147ae147bp+8%float.

(** *** The specification's wording of the day-count, over the integers

    [/] is floored division here, nothing wraps. *)
Definition days_from_civil (year month day : Z) : Z :=
  let y := if month <=? 2 then year - 1 else year in
  let era := y / 400 in
  let yoe := y - era * 400 in
  let doy := (153 * (month + (if month >? 2 then -3 else 9)) + 2) / 5 + day - 1 in
  let doe := yoe * 365 + yoe / 4 - yoe / 100 + doy in
  era * 146097 + doe - 719468.

(** The proleptic Gregorian calendar. *)
Definition bisiesto (y : Z) : bool :=
  ((y mod 4 =? 0) && negb (y mod 100 =? 0)) || (y mod 400 =? 0).

Definition dias_del_mes (y m : Z) : Z :=
  if m =? 2 then (if bisiesto y then 29 else 28)
  else if (m =? 4) || (m =? 6) || (m =? 9) || (m =? 11) then 30
  else 31.

(** The parameter ranges of the header: [mes] in [1..12], [dia] in [1..31]. *)
Definition civil (m d : Z) : Prop := 1 <= m <= 12 /\ 1 <= d <= 31.

(** A date of the calendar: the day exists in its month. *)
Definition fecha_valida (y m d : Z) : Prop :=
  1 <= m <= 12 /\ 1 <= d <= dias_del_mes y m.

(** The day after a calendar date. *)
Definition siguiente (f : Z * Z * Z) : Z * Z * Z :=
  let '(y, m, d) := f in
  if d <? dias_del_mes y m then (y, m, d + 1)
  else if m <? 12 then (y, m + 1, 1)
  else (y + 1, 1, 1).

(** Years for which no [long long] operation of [fecha_a_dias] overflows
    (about 1.8e16 years either side of the epoch). *)
Definition anio_en_rango (anio : Z) : Prop := - 2 ^ 54 <= anio <= 2 ^ 54.

(** Months and days for which no [unsigned] operation wraps: everything
    except day 0 of month 3 (whose day of the March-based year is -1) and
    values beyond any calendar. *)
Definition sin_vuelta (mes dia : Z) : Prop :=
  0 <= mes <= 2 ^ 24 /\ 0 <= dia <= 2 ^ 31 /\ (mes = 3 -> 1 <= dia).

Section Aritmetica.

Local Ltac Zify.zify_post_hook ::= Z.to_euclidean_division_equations.

Lemma u32_id z : 0 <= z < 2 ^ 32 -> u32 z = z.
Proof. intros H. unfold u32. apply Z.mod_small. exact H. Qed.

Lemma i64_id z : - 2 ^ 63 <= z < 2 ^ 63 -> i64 z = z.
Proof.
  intros H. unfold i64, s_wrap.
  rewrite Z.mod_small; [lia |].
  change (2 ^ (64 - 1)) with (2 ^ 63). change (2 ^ 64) with (2 * 2 ^ 63). lia.
Qed.

Lemma i32_id z : - 2 ^ 31 <= z < 2 ^ 31 -> i32 z = z.
Proof.
  intros H. unfold i32, s_wrap.
  rewrite Z.mod_small; [lia |].
  change (2 ^ (32 - 1)) with (2 ^ 31). change (2 ^ 32) with (2 * 2 ^ 31). lia.
Qed.

Lemma i64_rango z : en_i64 (i64 z).
Proof.
  unfold en_i64, i64, s_wrap.
  change (2 ^ (64 - 1)) with (2 ^ 63). change (2 ^ 64) with (2 * 2 ^ 63).
  pose proof (Z.mod_pos_bound (z + 2 ^ 63) (2 * 2 ^ 63)). lia.
Qed.

(** The era is the floored quotient by 400: truncation of [anio - 399] for
    negative years, of [anio] otherwise. *)
Lemma era_es_division_entera a :
  Z.quot (if a >=? 0 then a else a - 399) 400 = a / 400.
Proof. destruct (Z.geb_spec a 0); lia. Qed.

Lemma fecha_a_dias_days_from_civil anio mes dia :
  anio_en_rango anio -> sin_vuelta mes dia ->
  fecha_a_dias anio mes dia = days_from_civil anio mes dia.
Proof.
  unfold anio_en_rango, sin_vuelta. intros Ha (Hm & Hd & H3).
  unfold fecha_a_dias, days_from_civil.
  assert (Hb : b2z (mes <=? 2) = if mes <=? 2 then 1 else 0) by reflexivity.
  set (y := if mes <=? 2 then anio - 1 else anio).
  assert (Hy : anio - b2z (mes <=? 2) = y).
  { rewrite Hb. subst y. destruct (mes <=? 2); lia. }
  assert (Hyr : - 2 ^ 54 - 1 <= y <= 2 ^ 54).
  { subst y. destruct (mes <=? 2); lia. }
  rewrite Hy. rewrite (i64_id y) by lia.
  assert (He : Z.quot (if y >=? 0 then y else i64 (y - 399)) 400 = y / 400).
  { rewrite <- era_es_division_entera. destruct (y >=? 0); [reflexivity |].
    rewrite i64_id by lia. reflexivity. }
  rewrite He.
  set (era := y / 400).
  assert (Her : - 2 ^ 54 - 400 <= era * 400 <= 2 ^ 54) by (subst era; lia).
  rewrite (i64_id (era * 400)) by lia.
  assert (Hyoe : 0 <= y - era * 400 < 400) by (subst era; lia).
  rewrite (i64_id (y - era * 400)) by lia.
  rewrite (u32_id (y - era * 400)) by lia.
  set (yoe := y - era * 400) in *.
  set (s := mes + (if mes >? 2 then -3 else 9)).
  assert (Hs : 0 <= s <= 2 ^ 24 + 9 /\ (s = 0 -> mes = 3)).
  { subst s. destruct (Z.gtb_spec mes 2); lia. }
  rewrite (u32_id s) by lia.
  rewrite (u32_id (153 * s)) by lia.
  rewrite (u32_id (153 * s + 2)) by lia.
  assert (Ht : 0 <= (153 * s + 2) / 5 <= 2 ^ 30 /\ (s <> 0 -> 1 <= (153 * s + 2) / 5)) by lia.
  set (t := (153 * s + 2) / 5) in *.
  rewrite (u32_id (t + dia)) by lia.
  assert (Hdoy : 0 <= t + dia - 1 <= 2 ^ 30 + 2 ^ 31) by lia.
  rewrite (u32_id (t + dia - 1)) by lia.
  rewrite (u32_id (yoe * 365)) by lia.
  assert (H4 : 0 <= yoe / 4 <= 99) by lia.
  assert (H100 : 0 <= yoe / 100 <= 3) by lia.
  rewrite (u32_id (yoe * 365 + yoe / 4)) by lia.
  rewrite (u32_id (yoe * 365 + yoe / 4 - yoe / 100)) by lia.
  rewrite (u32_id (yoe * 365 + yoe / 4 - yoe / 100 + (t + dia - 1))) by lia.
  set (doe := yoe * 365 + yoe / 4 - yoe / 100 + (t + dia - 1)).
  assert (Hdoe : 0 <= doe < 2 ^ 32) by (subst doe; lia).
  rewrite (i64_id (era * 146097)) by lia.
  rewrite (i64_id (era * 146097 + doe)) by lia.
  rewrite (i64_id (era * 146097 + doe - 719468)) by lia.
  subst doe t s. lia.
Qed.

(** Days before 1 March of year [y], up to the fixed offset: the part of
    [days_from_civil] that depends on the (March-based) year alone. *)
Definition dias_hasta_marzo (y : Z) : Z :=
  let era := y / 400 in
  let yoe := y - era * 400 in
  era * 146097 + (yoe * 365 + yoe / 4 - yoe / 100).

Definition dia_del_anio (month day : Z) : Z :=
  (153 * (month + (if month >? 2 then -3 else 9)) + 2) / 5 + day - 1.

Lemma days_from_civil_partes year month day :
  days_from_civil year month day =
  dias_hasta_marzo (if month <=? 2 then year - 1 else year)
  + dia_del_anio month day - 719468.
Proof. unfold days_from_civil, dias_hasta_marzo, dia_del_anio. lia. Qed.

(** The era arithmetic is the closed Gregorian count: 365 days a year, one
    more every 4 years, except every 100, except every 400. *)
Lemma dias_hasta_marzo_cerrada y :
  dias_hasta_marzo y = 365 * y + y / 4 - y / 100 + y / 400.
Proof. unfold dias_hasta_marzo. lia. Qed.

Lemma dias_hasta_marzo_creciente y1 y2 :
  y1 < y2 -> dias_hasta_marzo y1 + 365 <= dias_hasta_marzo y2.
Proof. intros H. rewrite !dias_hasta_marzo_cerrada. lia. Qed.

Lemma bisiesto_spec y :
  bisiesto y = true <-> (y mod 4 = 0 /\ y mod 100 <> 0) \/ y mod 400 = 0.
Proof.
  unfold bisiesto.
  rewrite orb_true_iff, andb_true_iff, negb_true_iff, !Z.eqb_eq, Z.eqb_neq.
  reflexivity.
Qed.

(** A year is 365 days long, 366 when the year that ends in its February
    is a leap year. *)
Lemma dias_hasta_marzo_siguiente y :
  dias_hasta_marzo y = dias_hasta_marzo (y - 1) + 365 + b2z (bisiesto y).
Proof.
  rewrite !dias_hasta_marzo_cerrada.
  destruct (bisiesto y) eqn:Hb; unfold b2z.
  - apply bisiesto_spec in Hb. lia.
  - assert (Hn : ~ ((y mod 4 = 0 /\ y mod 100 <> 0) \/ y mod 400 = 0)).
    { intros H. apply bisiesto_spec in H. congruence. }
    lia.
Qed.

Lemma civil_sin_vuelta m d : civil m d -> sin_vuelta m d.
Proof. unfold civil, sin_vuelta. intros [Hm Hd]. repeat split; lia. Qed.

Lemma dias_del_mes_cota y m : 28 <= dias_del_mes y m <= 31.
Proof.
  unfold dias_del_mes.
  destruct (m =? 2); [destruct (bisiesto y); lia |].
  destruct ((m =? 4) || (m =? 6) || (m =? 9) || (m =? 11)); lia.
Qed.

Lemma fecha_valida_civil y m d : fecha_valida y m d -> civil m d.
Proof.
  unfold fecha_valida, civil. intros [Hm Hd].
  pose proof (dias_del_mes_cota y m). lia.
Qed.

Local Ltac por_mes m H :=
  assert (m = 1 \/ m = 2 \/ m = 3 \/ m = 4 \/ m = 5 \/ m = 6 \/ m = 7 \/
          m = 8 \/ m = 9 \/ m = 10 \/ m = 11 \/ m = 12) as H by lia;
  repeat (destruct H as [H | H]); subst m.

(** The day-count of the day after a calendar date is one more. *)
Lemma days_from_civil_siguiente y m d :
  fecha_valida y m d ->
  let '(y', m', d') := siguiente (y, m, d) in
  days_from_civil y' m' d' = days_from_civil y m d + 1.
Proof.
  intros [Hm Hd]. unfold siguiente.
  destruct (Z.ltb_spec d (dias_del_mes y m)) as [Hlt | Hge].
  { rewrite !days_from_civil_partes. unfold dia_del_anio. lia. }
  assert (d = dias_del_mes y m) by lia. subst d. clear Hd Hge.
  destruct (Z.ltb_spec m 12) as [Hm12 | Hm12].
  - rewrite !days_from_civil_partes.
    por_mes m Hc; try lia; unfold dias_del_mes, dia_del_anio; simpl;
      try lia.
    rewrite (dias_hasta_marzo_siguiente y).
    destruct (bisiesto y); unfold b2z; lia.
  - assert (m = 12) by lia. subst m.
    rewrite !days_from_civil_partes. unfold dias_del_mes, dia_del_anio. simpl.
    replace (y + 1 - 1) with y by lia. lia.
Qed.

(** For a fixed month and day, a later year is at least 365 days later. *)
Lemma days_from_civil_anio_creciente y1 y2 m d :
  y1 < y2 -> days_from_civil y1 m d + 365 <= days_from_civil y2 m d.
Proof.
  intros H. rewrite !days_from_civil_partes.
  destruct (m <=? 2).
  - pose proof (dias_hasta_marzo_creciente (y1 - 1) (y2 - 1)). lia.
  - pose proof (dias_hasta_marzo_creciente y1 y2). lia.
Qed.

(** Within a year, a later date has a larger day-count as soon as the
    earlier one is a date of the calendar. *)
Lemma days_from_civil_fecha_creciente y m1 d1 m2 d2 :
  fecha_valida y m1 d1 -> civil m2 d2 ->
  m1 < m2 \/ (m1 = m2 /\ d1 < d2) ->
  days_from_civil y m1 d1 < days_from_civil y m2 d2.
Proof.
  intros [Hm1 Hd1] [Hm2 Hd2] [Hlt | [-> Hlt]].
  2: { rewrite !days_from_civil_partes. unfold dia_del_anio. lia. }
  rewrite !days_from_civil_partes.
  pose proof (dias_hasta_marzo_siguiente y) as Hy.
  assert (Hb : 0 <= b2z (bisiesto y) <= 1) by (destruct (bisiesto y); simpl; lia).
  revert Hd1. unfold dias_del_mes, dia_del_anio.
  por_mes m1 Hc1; simpl; try lia;
    (destruct (bisiesto y); simpl in *; intros Hd1;
     destruct (Z.leb_spec m2 2); destruct (Z.gtb_spec m2 2); lia).
Qed.

End Aritmetica.

(** ** Exceptions as results *)

Inductive excepcion : Type :=
| invalid_argument (what : string)
| out_of_range (what : string).

Inductive resultado (A : Type) : Type :=
| Ok (a : A)
| Lanza (e : excepcion).
Arguments Ok {A} a.
Arguments Lanza {A} e.

Definition ligar {A B} (r : resultado A) (k : A -> resultado B) : resultado B :=
  match r with
  | Ok a => k a
  | Lanza e => Lanza e
  end.

Notation "x <- r ;; k" := (ligar r (fun x => k))
  (at level 20, r at level 99, k at level 200, only parsing).

(** ** Edad.cpp: [std::stoi] and [edad::parsear_fecha_iso] *)

Definition codigo (c : ascii) : Z := Z.of_N (N_of_ascii c).

(** [isspace] in the C locale: space, \t, \n, \v, \f, \r. *)
Definition isspace (c : ascii) : bool :=
  (codigo c =? 32) || ((9 <=? codigo c) && (codigo c <=? 13)).

Definition isdigit (c : ascii) : bool :=
  (48 <=? codigo c) && (codigo c <=? 57).

Fixpoint saltar_espacios (s : string) : string :=
  match s with
  | String c r => if isspace c then saltar_espacios r else s
  | EmptyString => s
  end.

Definition leer_signo (s : string) : bool * string :=
  match s with
  | String "-" r => (true, r)
  | String "+" r => (false, r)
  | _ => (false, s)
  end.

Fixpoint leer_digitos (s : string) (acc : Z) : Z :=
  match s with
  | String c r =>
      if isdigit c then leer_digitos r (10 * acc + (codigo c - 48)) else acc
  | EmptyString => acc
  end.

(** [strtol(s, &fin, 10)]: [None] when no conversion is performed.  The
    digits stop at the first character that is not one; what follows is
    ignored. *)
Definition strtol (s : string) : option Z :=
  let '(negativo, d) := leer_signo (saltar_espacios s) in
  match d with
  | String c _ =>
      if isdigit c
      then Some (if negativo then - leer_digitos d 0 else leer_digitos d 0)
      else None
  | EmptyString => None
  end.

(** [std::stoi(s)]: [invalid_argument] when no conversion is performed,
    [out_of_range] when the value does not fit an [int]. *)
Definition stoi (s : string) : resultado Z :=
  match strtol s with
  | None => Lanza (invalid_argument "stoi")
  | Some v =>
      if (- 2 ^ 31 <=? v) && (v <? 2 ^ 31) then Ok v
      else Lanza (out_of_range "stoi")
  end.

Definition guion : ascii := "-"%char.

Definition formato_invalido : excepcion :=
  invalid_argument "Formato inválido; se espera YYYY-MM-DD".

(** [texto.size() != 10 || texto[4] != '-' || texto[7] != '-'] *)
Definition forma_rechazada (texto : string) : bool :=
  negb (Nat.eqb (String.length texto) 10)
  || negb (bool_decide (String.get 4 texto = Some guion))
  || negb (bool_decide (String.get 7 texto = Some guion)).

Definition parsear_fecha_iso (texto : string) : resultado (Z * Z * Z) :=
  if forma_rechazada texto then Lanza formato_invalido
  else
    anio <- stoi (substring 0 4 texto) ;;
    mes <- stoi (substring 5 2 texto) ;;
    dia <- stoi (substring 8 2 texto) ;;
    Ok (anio, mes, dia).

(** The format of the specification: ten characters, ['-'] at positions 4
    and 7, decimal digits everywhere else. *)
Fixpoint todos_digitos (s : string) : bool :=
  match s with
  | String c r => isdigit c && todos_digitos r
  | EmptyString => true
  end.

Definition bien_formada (texto : string) : bool :=
  Nat.eqb (String.length texto) 10
  && bool_decide (String.get 4 texto = Some guion)
  && bool_decide (String.get 7 texto = Some guion)
  && todos_digitos (substring 0 4 texto)
  && todos_digitos (substring 5 2 texto)
  && todos_digitos (substring 8 2 texto).

(** An [invalid_argument]: what the header documents for a wrong format. *)
Definition error_de_formato {A} (r : resultado A) : Prop :=
  exists what, r = Lanza (invalid_argument what).

Section Parseo.

Lemma isdigit_valor c : isdigit c = true -> 0 <= codigo c - 48 <= 9.
Proof. unfold isdigit. intros H. apply andb_true_iff in H. lia. Qed.

Lemma isdigit_no_espacio c : isdigit c = true -> isspace c = false.
Proof. unfold isdigit, isspace. intros H. apply andb_true_iff in H. lia. Qed.

Lemma isdigit_no_signo c r :
  isdigit c = true -> leer_signo (String c r) = (false, String c r).
Proof.
  destruct c as [[] [] [] [] [] [] [] []]; intros H;
    try reflexivity; vm_compute in H; discriminate.
Qed.

(** The digits read into [acc] stay below the next power of ten. *)
Lemma leer_digitos_cota s : forall acc,
  0 <= acc ->
  acc <= leer_digitos s acc < (acc + 1) * 10 ^ Z.of_nat (String.length s).
Proof.
  induction s as [| c r IH]; intros acc Hacc; simpl String.length.
  - simpl. lia.
  - rewrite Nat2Z.inj_succ, Z.pow_succ_r by lia.
    assert (Hp : 0 < 10 ^ Z.of_nat (String.length r)) by (apply Z.pow_pos_nonneg; lia).
    simpl. destruct (isdigit c) eqn:Hc.
    + pose proof (isdigit_valor c Hc) as Hv.
      specialize (IH (10 * acc + (codigo c - 48)) ltac:(lia)). nia.
    + nia.
Qed.

Lemma saltar_espacios_longitud s :
  (String.length (saltar_espacios s) <= String.length s)%nat.
Proof.
  induction s as [| c r IH]; simpl; [lia |].
  destruct (isspace c); simpl; lia.
Qed.

Lemma leer_signo_longitud s :
  (String.length (snd (leer_signo s)) <= String.length s)%nat.
Proof.
  destruct s as [| c r]; [simpl; lia |].
  destruct c as [[] [] [] [] [] [] [] []]; simpl; lia.
Qed.

Lemma strtol_cota s v :
  strtol s = Some v -> Z.abs v < 10 ^ Z.of_nat (String.length s).
Proof.
  unfold strtol.
  pose proof (saltar_espacios_longitud s) as H1.
  pose proof (leer_signo_longitud (saltar_espacios s)) as H2.
  destruct (leer_signo (saltar_espacios s)) as [neg d]. simpl in H2.
  destruct d as [| c r]; [discriminate |].
  pose proof (leer_digitos_cota (String c r) 0 ltac:(lia)) as Hb.
  assert (Hle : 10 ^ Z.of_nat (String.length (String c r))
                <= 10 ^ Z.of_nat (String.length s)).
  { apply Z.pow_le_mono_r; lia. }
  remember (leer_digitos (String c r) 0) as v0 eqn:E. clear E.
  destruct (isdigit c); [| discriminate].
  intros [= <-]. destruct neg; lia.
Qed.

(** A string of at most nine characters never overflows an [int]. *)
Lemma stoi_corta s e :
  (String.length s <= 9)%nat -> stoi s = Lanza e -> e = invalid_argument "stoi".
Proof.
  intros Hlen. unfold stoi. destruct (strtol s) as [v |] eqn:Hs.
  - apply strtol_cota in Hs.
    assert (10 ^ Z.of_nat (String.length s) <= 10 ^ 9)
      by (apply Z.pow_le_mono_r; lia).
    assert (Hr : (- 2 ^ 31 <=? v) && (v <? 2 ^ 31) = true)
      by (apply andb_true_iff; lia).
    rewrite Hr. discriminate.
  - intros [= <-]. reflexivity.
Qed.

Lemma substring_longitud n m s : (String.length (substring n m s) <= m)%nat.
Proof.
  revert n m. induction s as [| c r IH]; intros [| n] [| m]; simpl;
    try lia.
  - specialize (IH 0%nat m). lia.
  - apply (IH n 0%nat).
  - apply (IH n (S m)).
Qed.

(** On a non-empty string of digits, [stoi] returns its decimal value. *)
Lemma stoi_digitos s :
  todos_digitos s = true -> (1 <= String.length s <= 9)%nat ->
  stoi s = Ok (leer_digitos s 0)
  /\ 0 <= leer_digitos s 0 < 10 ^ Z.of_nat (String.length s).
Proof.
  intros Hd Hlen.
  destruct s as [| c r]; [simpl in Hlen; lia |].
  simpl in Hd. apply andb_true_iff in Hd as [Hc Hr].
  pose proof (leer_digitos_cota (String c r) 0 ltac:(lia)) as Hb.
  assert (Hs : strtol (String c r) = Some (leer_digitos (String c r) 0)).
  { unfold strtol. cbn [saltar_espacios].
    rewrite (isdigit_no_espacio c Hc), (isdigit_no_signo c r Hc), Hc.
    reflexivity. }
  split; [| lia].
  unfold stoi. rewrite Hs.
  assert (10 ^ Z.of_nat (String.length (String c r)) <= 10 ^ 9)
    by (apply Z.pow_le_mono_r; lia).
  assert (Hr' : (- 2 ^ 31 <=? leer_digitos (String c r) 0)
                && (leer_digitos (String c r) 0 <? 2 ^ 31) = true)
    by (apply andb_true_iff; lia).
  rewrite Hr'. reflexivity.
Qed.

Lemma substring_longitud_exacta n m s :
  (n + m <= String.length s)%nat -> String.length (substring n m s) = m.
Proof.
  revert n m. induction s as [| c r IH]; intros [| n] [| m]; simpl;
    intros H; try lia.
  - f_equal. apply (IH 0%nat m). lia.
  - apply (IH n 0%nat). lia.
  - apply (IH n (S m)). lia.
Qed.

(** Whatever the text, the parser fails with an [invalid_argument] only. *)
Lemma parsear_fecha_iso_solo_formato texto e :
  parsear_fecha_iso texto = Lanza e ->
  e = formato_invalido \/ e = invalid_argument "stoi".
Proof.
  unfold parsear_fecha_iso.
  destruct (forma_rechazada texto); [intros [= <-]; left; reflexivity |].
  intros H. right.
  destruct (stoi (substring 0 4 texto)) as [a |] eqn:Ha; simpl in H.
  2: { injection H as <-. eapply stoi_corta; [| exact Ha].
       pose proof (substring_longitud 0 4 texto). lia. }
  destruct (stoi (substring 5 2 texto)) as [m |] eqn:Hm; simpl in H.
  2: { injection H as <-. eapply stoi_corta; [| exact Hm].
       pose proof (substring_longitud 5 2 texto). lia. }
  destruct (stoi (substring 8 2 texto)) as [d |] eqn:Hd; simpl in H.
  2: { injection H as <-. eapply stoi_corta; [| exact Hd].
       pose proof (substring_longitud 8 2 texto). lia. }
  discriminate.
Qed.

Lemma bien_formada_forma texto :
  bien_formada texto = true -> forma_rechazada texto = false.
Proof.
  unfold bien_formada, forma_rechazada. intros H.
  repeat (apply andb_true_iff in H as [H ?]).
  rewrite H. destruct (bool_decide _); [| discriminate].
  destruct (bool_decide _); [reflexivity | discriminate].
Qed.

Lemma parsear_fecha_iso_digitos texto :
  bien_formada texto = true ->
  parsear_fecha_iso texto =
    Ok (leer_digitos (substring 0 4 texto) 0,
        leer_digitos (substring 5 2 texto) 0,
        leer_digitos (substring 8 2 texto) 0)
  /\ 0 <= leer_digitos (substring 0 4 texto) 0 <= 9999
  /\ 0 <= leer_digitos (substring 5 2 texto) 0 <= 99
  /\ 0 <= leer_digitos (substring 8 2 texto) 0 <= 99.
Proof.
  intros H. pose proof (bien_formada_forma texto H) as Hf.
  unfold bien_formada in H.
  repeat (apply andb_true_iff in H as [H ?]).
  apply Nat.eqb_eq in H.
  destruct (stoi_digitos (substring 0 4 texto)) as [Ea Ra]; [assumption | |].
  { rewrite substring_longitud_exacta; lia. }
  destruct (stoi_digitos (substring 5 2 texto)) as [Em Rm]; [assumption | |].
  { rewrite substring_longitud_exacta; lia. }
  destruct (stoi_digitos (substring 8 2 texto)) as [Ed Rd]; [assumption | |].
  { rewrite substring_longitud_exacta; lia. }
  rewrite substring_longitud_exacta in Ra, Rm, Rd by lia.
  unfold parsear_fecha_iso. rewrite Hf, Ea, Em, Ed. simpl.
  repeat split; lia.
Qed.

End Parseo.

(** ** Edad.cpp: [edad::calcular] *)

(** [struct tm], as [localtime_r] fills it. *)
Record tm : Type := mk_tm {
  tm_sec : Z; tm_min : Z; tm_hour : Z;
  tm_mday : Z; tm_mon : Z; tm_year : Z;
  tm_wday : Z; tm_yday : Z; tm_isdst : Z
}.

(** [std::tm fecha_actual{}] *)
Definition tm_cero : tm := mk_tm 0 0 0 0 0 0 0 0 0.

(** What [calcular] reads from the system: the value of [std::time(nullptr)]
    and the time zone rules behind [localtime_r] ([None]: the call fails and
    leaves its argument untouched). *)
Record Reloj : Type := mk_Reloj {
  reloj_time : Z;
  reloj_localtime : Z -> option tm
}.

(** [static_cast<double>(long long)]: the nearest binary64, ties to even. *)
Definition double_of_Z (z : Z) : float :=
  SF2Prim (binary_normalize prec emax z 0 false).

Arguments double_of_Z : simpl never.

Definition fecha_actual (r : Reloj) : tm :=
  match reloj_localtime r (reloj_time r) with
  | Some t => t
  | None => tm_cero
  end.

(** Day-count of the local date of the clock, as [calcular] computes it:
    [tm_year + 1900] and [tm_mon + 1] are [int] sums, the month and the day
    are then converted to [unsigned]. *)
Definition dias_de_tm (t : tm) : Z :=
  fecha_a_dias (i32 (tm_year t + 1900)) (u32 (i32 (tm_mon t + 1)))
               (u32 (tm_mday t)).

(** [double calcular(const std::string& fecha_nacimiento)].  The parsed
    [int] month and day are converted to [unsigned] at the call of
    [fecha_a_dias]. *)
Definition calcular (r : Reloj) (fecha_nacimiento : string) : resultado float :=
  f <- parsear_fecha_iso fecha_nacimiento ;;
  let '(anio_nac, mes_nac, dia_nac) := f in
  let dias_nacimiento := fecha_a_dias anio_nac (u32 mes_nac) (u32 dia_nac) in
  let dias_hoy := dias_de_tm (fecha_actual r) in
  Ok (double_of_Z (i64 (dias_hoy - dias_nacimiento)) / DIAS_PROMEDIO_ANIO)%float.

(** A clock for concrete runs: the time zone is UTC, [localtime_r] is the
    inverse of the day-count (the civil-from-days companion of the
    algorithm of [fecha_a_dias]). *)
Definition gmtime (t : Z) : option tm :=
  let z := t / 86400 + 719468 in
  let s := t mod 86400 in
  let era := z / 146097 in
  let doe := z - era * 146097 in
  let yoe := (doe - doe / 1460 + doe / 36524 - doe / 146096) / 365 in
  let doy := doe - (365 * yoe + yoe / 4 - yoe / 100) in
  let mp := (5 * doy + 2) / 153 in
  let d := doy - (153 * mp + 2) / 5 + 1 in
  let m := if mp <? 10 then mp + 3 else mp - 9 in
  let y := yoe + era * 400 + (if m <=? 2 then 1 else 0) in
  Some (mk_tm (s mod 60) (s / 60 mod 60) (s / 3600) d (m - 1) (y - 1900)
              ((t / 86400 + 4) mod 7) (t / 86400 - days_from_civil y 1 1) 0).

Definition reloj_utc (t : Z) : Reloj := mk_Reloj t gmtime.

Section Calcular.

Local Ltac Zify.zify_post_hook ::= Z.to_euclidean_division_equations.

Lemma u32_rango z : 0 <= u32 z < 2 ^ 32.
Proof. unfold u32. apply Z.mod_pos_bound. lia. Qed.

Lemma i32_rango z : - 2 ^ 31 <= i32 z < 2 ^ 31.
Proof.
  unfold i32, s_wrap.
  change (2 ^ (32 - 1)) with (2 ^ 31). change (2 ^ 32) with (2 * 2 ^ 31).
  pose proof (Z.mod_pos_bound (z + 2 ^ 31) (2 * 2 ^ 31)). lia.
Qed.

(** With a year that fits an [int], the day-count stays far from the ends
    of [long long], whatever the month and the day. *)
Lemma fecha_a_dias_cota anio mes dia :
  - 2 ^ 31 <= anio < 2 ^ 31 -> - 2 ^ 41 <= fecha_a_dias anio mes dia <= 2 ^ 41.
Proof.
  intros Ha. unfold fecha_a_dias.
  assert (Hb : 0 <= b2z (mes <=? 2) <= 1) by (destruct (mes <=? 2); simpl; lia).
  rewrite (i64_id (anio - b2z (mes <=? 2))) by lia.
  set (y := anio - b2z (mes <=? 2)) in *.
  assert (He : Z.quot (if y >=? 0 then y else i64 (y - 399)) 400 = y / 400).
  { rewrite <- era_es_division_entera. destruct (y >=? 0); [reflexivity |].
    rewrite i64_id by lia. reflexivity. }
  rewrite He. set (era := y / 400).
  assert (Her : - 2 ^ 31 - 400 <= era * 400 <= 2 ^ 31) by (subst era; lia).
  match goal with
  | |- _ <= i64 (i64 (i64 (era * 146097) + u32 ?e) - 719468) <= _ =>
      pose proof (u32_rango e) as Hd; set (dias_era := u32 e) in *
  end.
  rewrite (i64_id (era * 146097)) by lia.
  rewrite (i64_id (era * 146097 + dias_era)) by lia.
  rewrite (i64_id (era * 146097 + dias_era - 719468)) by lia.
  lia.
Qed.

Lemma stoi_cota s v :
  stoi s = Ok v -> Z.abs v < 10 ^ Z.of_nat (String.length s).
Proof.
  unfold stoi. destruct (strtol s) as [w |] eqn:Hs; [| discriminate].
  destruct ((- 2 ^ 31 <=? w) && (w <? 2 ^ 31)); [| discriminate].
  intros [= <-]. apply strtol_cota. exact Hs.
Qed.

Lemma parsear_fecha_iso_cota texto anio mes dia :
  parsear_fecha_iso texto = Ok (anio, mes, dia) ->
  - 9999 <= anio <= 9999 /\ - 99 <= mes <= 99 /\ - 99 <= dia <= 99.
Proof.
  unfold parsear_fecha_iso.
  destruct (forma_rechazada texto); [discriminate |].
  destruct (stoi (substring 0 4 texto)) as [a |] eqn:Ha; [| discriminate].
  destruct (stoi (substring 5 2 texto)) as [m |] eqn:Hm; [| discriminate].
  destruct (stoi (substring 8 2 texto)) as [d |] eqn:Hd; [| discriminate].
  simpl. intros [= <- <- <-].
  apply stoi_cota in Ha, Hm, Hd.
  pose proof (substring_longitud 0 4 texto).
  pose proof (substring_longitud 5 2 texto).
  pose proof (substring_longitud 8 2 texto).
  assert (10 ^ Z.of_nat (String.length (substring 0 4 texto)) <= 10 ^ 4)
    by (apply Z.pow_le_mono_r; lia).
  assert (10 ^ Z.of_nat (String.length (substring 5 2 texto)) <= 10 ^ 2)
    by (apply Z.pow_le_mono_r; lia).
  assert (10 ^ Z.of_nat (String.length (substring 8 2 texto)) <= 10 ^ 2)
    by (apply Z.pow_le_mono_r; lia).
  lia.
Qed.

(** The subtraction of the two day-counts never overflows. *)
Lemma calcular_exito r texto anio mes dia :
  parsear_fecha_iso texto = Ok (anio, mes, dia) ->
  calcular r texto =
    Ok (double_of_Z (dias_de_tm (fecha_actual r)
                     - fecha_a_dias anio (u32 mes) (u32 dia))
        / DIAS_PROMEDIO_ANIO)%float.
Proof.
  intros Hp. pose proof (parsear_fecha_iso_cota _ _ _ _ Hp) as (Ha & _ & _).
  unfold calcular. rewrite Hp. cbn [ligar].
  pose proof (fecha_a_dias_cota anio (u32 mes) (u32 dia) ltac:(lia)).
  unfold dias_de_tm.
  pose proof (fecha_a_dias_cota (i32 (tm_year (fecha_actual r) + 1900))
    (u32 (i32 (tm_mon (fecha_actual r) + 1))) (u32 (tm_mday (fecha_actual r)))
    (i32_rango _)).
  rewrite i64_id by lia. reflexivity.
Qed.

Lemma calcular_fallo r texto e :
  calcular r texto = Lanza e <-> parsear_fecha_iso texto = Lanza e.
Proof.
  unfold calcular.
  destruct (parsear_fecha_iso texto) as [[[a m] d] | e']; cbn [ligar].
  - split; discriminate.
  - split; intros [= ->]; reflexivity.
Qed.

Lemma calcular_solo_fecha_local_aux r1 r2 texto :
  tm_year (fecha_actual r1) = tm_year (fecha_actual r2) ->
  tm_mon (fecha_actual r1) = tm_mon (fecha_actual r2) ->
  tm_mday (fecha_actual r1) = tm_mday (fecha_actual r2) ->
  calcular r1 texto = calcular r2 texto.
Proof.
  intros Hy Hm Hd. unfold calcular, dias_de_tm. rewrite Hy, Hm, Hd.
  reflexivity.
Qed.

End Calcular.

(** ** Properties of [edad::fecha_a_dias] *)

Section ConteoDeDias.

Local Ltac Zify.zify_post_hook ::= Z.to_euclidean_division_equations.



(** X2. From one calendar date to the next day the day-count grows by
    exactly one: across month ends, 28/29 February by the Gregorian leap
    rule, and 31 December. *)
Theorem fecha_a_dias_dia_siguiente anio mes dia :
  anio_en_rango anio -> anio_en_rango (anio + 1) -> fecha_valida anio mes dia ->
  let '(a', m', d') := siguiente (anio, mes, dia) in
  fecha_a_dias a' m' d' = fecha_a_dias anio mes dia + 1.
Proof.
  intros Ha Ha1 Hv.
  pose proof (days_from_civil_siguiente anio mes dia Hv) as Hs.
  pose proof (fecha_valida_civil _ _ _ Hv) as Hc.
  rewrite (fecha_a_dias_days_from_civil anio mes dia Ha (civil_sin_vuelta _ _ Hc)).
  destruct Hv as [Hm Hd]. pose proof (dias_del_mes_cota anio mes) as Hb.
  unfold siguiente in *.
  destruct (dia <? dias_del_mes anio mes) eqn:E1.
  - apply Z.ltb_lt in E1.
    rewrite fecha_a_dias_days_from_civil; [exact Hs | exact Ha |].
    unfold sin_vuelta; lia.
  - destruct (mes <? 12) eqn:E2.
    + apply Z.ltb_lt in E2.
      rewrite fecha_a_dias_days_from_civil; [exact Hs | exact Ha |].
      unfold sin_vuelta; lia.
    + rewrite fecha_a_dias_days_from_civil; [exact Hs | exact Ha1 |].
      unfold sin_vuelta; lia.
Qed.

Lemma fecha_a_dias_dia_siguiente_witness :
  fecha_a_dias 2000 3 1 = fecha_a_dias 2000 2 29 + 1.
Proof.
  refine (fecha_a_dias_dia_siguiente 2000 2 29 _ _ _).
  - unfold anio_en_rango. lia.
  - unfold anio_en_rango. lia.
  - unfold fecha_valida. vm_compute. intuition discriminate.
Defined.

(** X3. For a fixed month and day in the header's ranges, a later year is
    at least 365 days later. *)
Theorem fecha_a_dias_anio_creciente a1 a2 mes dia :
  anio_en_rango a1 -> anio_en_rango a2 -> civil mes dia -> a1 < a2 ->
  fecha_a_dias a1 mes dia + 365 <= fecha_a_dias a2 mes dia.
Proof.
  intros H1 H2 Hc Hlt.
  rewrite !fecha_a_dias_days_from_civil by (auto using civil_sin_vuelta).
  apply days_from_civil_anio_creciente. exact Hlt.
Qed.

Lemma fecha_a_dias_anio_creciente_witness :
  fecha_a_dias (-1) 2 29 + 365 <= fecha_a_dias 0 2 29.
Proof.
  refine (fecha_a_dias_anio_creciente (-1) 0 2 29 _ _ _ _).
  - unfold anio_en_rango. lia.
  - unfold anio_en_rango. lia.
  - unfold civil. lia.
  - lia.
Defined.

(** X4. Within one year, a date of the calendar has a smaller day-count
    than any later month, and than any later day of its month. *)
Theorem fecha_a_dias_fecha_creciente anio m1 d1 m2 d2 :
  anio_en_rango anio -> fecha_valida anio m1 d1 -> civil m2 d2 ->
  m1 < m2 \/ (m1 = m2 /\ d1 < d2) ->
  fecha_a_dias anio m1 d1 < fecha_a_dias anio m2 d2.
Proof.
  intros Ha Hv Hc Hlt.
  rewrite !fecha_a_dias_days_from_civil
    by eauto using civil_sin_vuelta, fecha_valida_civil.
  apply days_from_civil_fecha_creciente; assumption.
Qed.

Lemma fecha_a_dias_fecha_creciente_witness :
  fecha_a_dias 2023 2 28 < fecha_a_dias 2023 3 1.
Proof.
  refine (fecha_a_dias_fecha_creciente 2023 2 28 3 1 _ _ _ _).
  - unfold anio_en_rango. lia.
  - unfold fecha_valida. vm_compute. intuition discriminate.
  - unfold civil. lia.
  - left. lia.
Defined.

(** Calendar order on (year, month, day). *)
Definition antes (f1 f2 : Z * Z * Z) : Prop :=
  let '(a1, m1, d1) := f1 in
  let '(a2, m2, d2) := f2 in
  a1 < a2 \/ (a1 = a2 /\ (m1 < m2 \/ (m1 = m2 /\ d1 < d2))).

Lemma days_from_civil_antes a1 m1 d1 a2 m2 d2 :
  fecha_valida a1 m1 d1 -> fecha_valida a2 m2 d2 ->
  antes (a1, m1, d1) (a2, m2, d2) ->
  days_from_civil a1 m1 d1 < days_from_civil a2 m2 d2.
Proof.
  intros Hv1 Hv2 [Hlt | [-> Hlt]].
  2: { apply days_from_civil_fecha_creciente;
         eauto using fecha_valida_civil. }
  (* up to 31 December, over the new year, on from 1 January *)
  assert (H1 : days_from_civil a1 m1 d1 <= days_from_civil a1 12 31).
  { destruct Hv1 as [Hm Hd].
    destruct (Z.eq_dec m1 12) as [-> | Hne].
    - rewrite !days_from_civil_partes. unfold dia_del_anio.
      unfold dias_del_mes in Hd. simpl in *. lia.
    - apply Z.lt_le_incl. apply days_from_civil_fecha_creciente.
      + split; assumption.
      + unfold civil. lia.
      + left. lia. }
  assert (H2 : days_from_civil (a1 + 1) 1 1 = days_from_civil a1 12 31 + 1).
  { apply (days_from_civil_siguiente a1 12 31).
    unfold fecha_valida, dias_del_mes. simpl. lia. }
  assert (H3 : days_from_civil (a1 + 1) 1 1 <= days_from_civil a2 1 1).
  { destruct (Z.eq_dec (a1 + 1) a2) as [<- | Hne]; [lia |].
    pose proof (days_from_civil_anio_creciente (a1 + 1) a2 1 1 ltac:(lia)).
    lia. }
  assert (H4 : days_from_civil a2 1 1 <= days_from_civil a2 m2 d2).
  { destruct Hv2 as [Hm Hd]. pose proof (dias_del_mes_cota a2 m2).
    rewrite !days_from_civil_partes. unfold dia_del_anio.
    destruct (Z.leb_spec m2 2); destruct (Z.gtb_spec m2 2); simpl; try lia.
    pose proof (dias_hasta_marzo_siguiente a2).
    assert (0 <= b2z (bisiesto a2)) by (destruct (bisiesto a2); simpl; lia).
    lia. }
  lia.
Qed.

(** X5. On dates of the calendar the day-count is an order embedding: one
    date is before another exactly when its day-count is smaller; so two
    different calendar dates never share a day-count. *)
Theorem fecha_a_dias_orden a1 m1 d1 a2 m2 d2 :
  anio_en_rango a1 -> anio_en_rango a2 ->
  fecha_valida a1 m1 d1 -> fecha_valida a2 m2 d2 ->
  (antes (a1, m1, d1) (a2, m2, d2) <->
   fecha_a_dias a1 m1 d1 < fecha_a_dias a2 m2 d2)
  /\ (fecha_a_dias a1 m1 d1 = fecha_a_dias a2 m2 d2 ->
      (a1, m1, d1) = (a2, m2, d2)).
Proof.
  intros Hr1 Hr2 Hv1 Hv2.
  rewrite !fecha_a_dias_days_from_civil
    by eauto using civil_sin_vuelta, fecha_valida_civil.
  pose proof (days_from_civil_antes a1 m1 d1 a2 m2 d2 Hv1 Hv2) as H12.
  pose proof (days_from_civil_antes a2 m2 d2 a1 m1 d1 Hv2 Hv1) as H21.
  assert (Htri : antes (a1, m1, d1) (a2, m2, d2)
                 \/ (a1, m1, d1) = (a2, m2, d2)
                 \/ antes (a2, m2, d2) (a1, m1, d1)).
  { unfold antes.
    destruct (Z.lt_trichotomy a1 a2) as [? | [-> | ?]]; [tauto | | tauto].
    destruct (Z.lt_trichotomy m1 m2) as [? | [-> | ?]]; [tauto | | tauto].
    destruct (Z.lt_trichotomy d1 d2) as [? | [-> | ?]]; tauto. }
  split.
  - split; [exact H12 |]. intros Hlt.
    destruct Htri as [H | [H | H]]; [exact H | |].
    + injection H as -> -> ->. lia.
    + specialize (H21 H). lia.
  - intros Heq. destruct Htri as [H | [H | H]]; [| exact H |].
    + specialize (H12 H). lia.
    + specialize (H21 H). lia.
Qed.

Lemma fecha_a_dias_orden_witness :
  (antes (1999, 12, 31) (2000, 1, 1) <->
   fecha_a_dias 1999 12 31 < fecha_a_dias 2000 1 1)
  /\ (fecha_a_dias 1999 12 31 = fecha_a_dias 2000 1 1 ->
      (1999, 12, 31) = (2000, 1, 1)).
Proof.
  refine (fecha_a_dias_orden 1999 12 31 2000 1 1 _ _ _ _).
  - unfold anio_en_rango. lia.
  - unfold anio_en_rango. lia.
  - unfold fecha_valida. vm_compute. intuition discriminate.
  - unfold fecha_valida. vm_compute. intuition discriminate.
Defined.

(** X6. Day 0 of March is where the [unsigned] day of the year wraps: it is
    the day before 1 March, except in the first year of an era (a year
    divisible by 400), where the wrapped value is not absorbed and the
    day-count lands 2^32 days later. *)
Theorem fecha_a_dias_marzo_dia_cero anio :
  anio_en_rango anio ->
  fecha_a_dias anio 3 0 =
    fecha_a_dias anio 3 1 - 1 + (if anio mod 400 =? 0 then 2 ^ 32 else 0).
Proof.
  unfold anio_en_rango. intros Ha.
  rewrite (fecha_a_dias_days_from_civil anio 3 1)
    by (unfold anio_en_rango, sin_vuelta; lia).
  rewrite days_from_civil_partes.
  change (dia_del_anio 3 1) with 0. change (3 <=? 2) with false. cbv iota.
  unfold dias_hasta_marzo. cbv zeta.
  unfold fecha_a_dias. simpl b2z.
  replace (anio - 0) with anio by lia.
  rewrite (i64_id anio) by lia.
  assert (He : Z.quot (if anio >=? 0 then anio else i64 (anio - 399)) 400
               = anio / 400).
  { rewrite <- era_es_division_entera. destruct (anio >=? 0); [reflexivity |].
    rewrite i64_id by lia. reflexivity. }
  rewrite He. set (era := anio / 400).
  assert (Her : - 2 ^ 54 - 400 <= era * 400 <= 2 ^ 54) by (subst era; lia).
  assert (Hyoe : 0 <= anio - era * 400 < 400) by (subst era; lia).
  assert (Hz : anio mod 400 = anio - era * 400) by (subst era; lia).
  rewrite Hz.
  rewrite (i64_id (era * 400)) by lia.
  rewrite (i64_id (anio - era * 400)) by lia.
  rewrite (u32_id (anio - era * 400)) by lia.
  set (yoe := anio - era * 400) in *.
  change (u32 (u32 (u32 (u32 (153 * u32 (3 + (if 3 >? 2 then -3 else 9))) + 2)
                         / 5 + 0) - 1)) with (2 ^ 32 - 1).
  rewrite (u32_id (yoe * 365)) by lia.
  assert (H4 : 0 <= yoe / 4 <= 99) by lia.
  assert (H100 : 0 <= yoe / 100 <= 3) by lia.
  rewrite (u32_id (yoe * 365 + yoe / 4)) by lia.
  rewrite (u32_id (yoe * 365 + yoe / 4 - yoe / 100)) by lia.
  set (e := yoe * 365 + yoe / 4 - yoe / 100).
  assert (Hedef : e = yoe * 365 + yoe / 4 - yoe / 100) by reflexivity.
  assert (Hd : u32 (e + (2 ^ 32 - 1)) = if yoe =? 0 then 2 ^ 32 - 1 else e - 1).
  { unfold u32. destruct (Z.eqb_spec yoe 0) as [E0 | E0].
    - assert (e = 0) by lia. lia.
    - assert (1 <= e < 2 ^ 31) by lia. lia. }
  rewrite Hd.
  rewrite (i64_id (era * 146097)) by lia.
  destruct (Z.eqb_spec yoe 0) as [E0 | E0].
  - rewrite (i64_id (era * 146097 + (2 ^ 32 - 1))) by lia.
    rewrite i64_id by lia. lia.
  - assert (1 <= e < 2 ^ 31) by lia.
    rewrite (i64_id (era * 146097 + (e - 1))) by lia.
    rewrite i64_id by lia. lia.
Qed.

Lemma fecha_a_dias_marzo_dia_cero_witness :
  fecha_a_dias 2000 3 0 = fecha_a_dias 2000 3 1 - 1 + 2 ^ 32.
Proof.
  refine (fecha_a_dias_marzo_dia_cero 2000 _).
  unfold anio_en_rango. lia.
Defined.

End ConteoDeDias.

(** ** Properties of [edad::parsear_fecha_iso] *)

Section PropiedadesParseo.

Definition digito (c : ascii) : Z := codigo c - 48.

(** The text [c0 c1 c2 c3 - c5 c6 - c8 c9]. *)
Definition texto_iso (c0 c1 c2 c3 c5 c6 c8 c9 : ascii) : string :=
  String c0 (String c1 (String c2 (String c3 (String guion
  (String c5 (String c6 (String guion
  (String c8 (String c9 EmptyString))))))))).

(** X7. A text of eight decimal digits with ['-'] at positions 4 and 7 is
    parsed without exception into the decimal values of its three fields;
    the year is in [0, 9999], the month and the day are in [0, 99] and are
    not checked against the calendar. *)
Theorem parsear_fecha_iso_decimal c0 c1 c2 c3 c5 c6 c8 c9 :
  isdigit c0 = true -> isdigit c1 = true -> isdigit c2 = true ->
  isdigit c3 = true -> isdigit c5 = true -> isdigit c6 = true ->
  isdigit c8 = true -> isdigit c9 = true ->
  parsear_fecha_iso (texto_iso c0 c1 c2 c3 c5 c6 c8 c9) =
    Ok (1000 * digito c0 + 100 * digito c1 + 10 * digito c2 + digito c3,
        10 * digito c5 + digito c6,
        10 * digito c8 + digito c9)
  /\ 0 <= 1000 * digito c0 + 100 * digito c1 + 10 * digito c2 + digito c3 <= 9999
  /\ 0 <= 10 * digito c5 + digito c6 <= 99
  /\ 0 <= 10 * digito c8 + digito c9 <= 99.
Proof.
  intros H0 H1 H2 H3 H5 H6 H8 H9.
  assert (Hb : bien_formada (texto_iso c0 c1 c2 c3 c5 c6 c8 c9) = true).
  { unfold bien_formada, texto_iso. cbn.
    rewrite H0, H1, H2, H3, H5, H6, H8, H9.
    rewrite !bool_decide_eq_true_2 by reflexivity. reflexivity. }
  destruct (parsear_fecha_iso_digitos _ Hb) as (Hp & Ha & Hm & Hd).
  revert Hp Ha Hm Hd. unfold texto_iso. cbn [substring leer_digitos].
  rewrite H0, H1, H2, H3, H5, H6, H8, H9. unfold digito.
  intros Hp Ha Hm Hd. rewrite Hp.
  split; [| repeat split; lia].
  assert (Heq : forall a b c a' b' c' : Z, a = a' -> b = b' -> c = c' ->
                @Ok (Z * Z * Z) (a, b, c) = Ok (a', b', c'))
    by (intros; subst; reflexivity).
  apply Heq; lia.
Qed.

Lemma parsear_fecha_iso_decimal_witness :
  parsear_fecha_iso "2005-13-06" = Ok (2005, 13, 6)
  /\ 0 <= 2005 <= 9999 /\ 0 <= 13 <= 99 /\ 0 <= 6 <= 99.
Proof.
  refine (parsear_fecha_iso_decimal "2" "0" "0" "5" "1" "3" "0" "6"
            _ _ _ _ _ _ _ _); reflexivity.
Defined.

(** X8. Whatever the text, the parser throws nothing but
    [std::invalid_argument]: its own message exactly when the length is not
    10 or a ['-'] is missing at position 4 or 7, the message of [std::stoi]
    otherwise; [std::out_of_range] cannot happen. *)
Theorem parsear_fecha_iso_excepciones texto :
  (forma_rechazada texto = true <->
   parsear_fecha_iso texto = Lanza formato_invalido)
  /\ (forall e, parsear_fecha_iso texto = Lanza e ->
        e = formato_invalido \/ e = invalid_argument "stoi").
Proof.
  split; [| intros e; apply parsear_fecha_iso_solo_formato].
  split.
  - intros H. unfold parsear_fecha_iso. rewrite H. reflexivity.
  - intros H. destruct (forma_rechazada texto) eqn:Hf; [reflexivity |].
    exfalso. revert H. unfold parsear_fecha_iso. rewrite Hf.
    destruct (stoi (substring 0 4 texto)) as [a |] eqn:Ha; cbn [ligar].
    2: { intros [= ->]. eapply stoi_corta in Ha; [discriminate |].
         pose proof (substring_longitud 0 4 texto). lia. }
    destruct (stoi (substring 5 2 texto)) as [m |] eqn:Hm; cbn [ligar].
    2: { intros [= ->]. eapply stoi_corta in Hm; [discriminate |].
         pose proof (substring_longitud 5 2 texto). lia. }
    destruct (stoi (substring 8 2 texto)) as [d |] eqn:Hd; cbn [ligar].
    2: { intros [= ->]. eapply stoi_corta in Hd; [discriminate |].
         pose proof (substring_longitud 8 2 texto). lia. }
    discriminate.
Qed.

Lemma leer_signo_negativo s d :
  leer_signo s = (true, d) -> String.length s = S (String.length d).
Proof.
  destruct s as [| c r]; [discriminate |].
  destruct c as [[] [] [] [] [] [] [] []]; simpl; intros [= <-];
    reflexivity.
Qed.

Lemma strtol_cota_ajustada s v :
  strtol s = Some v ->
  - 10 ^ (Z.of_nat (String.length s) - 1) < v < 10 ^ Z.of_nat (String.length s).
Proof.
  intros Hs. pose proof (strtol_cota s v Hs) as Hab.
  split; [| lia].
  revert Hs. unfold strtol.
  pose proof (saltar_espacios_longitud s) as H1.
  destruct (leer_signo (saltar_espacios s)) as [neg d] eqn:Hsig.
  destruct d as [| c r]; [discriminate |].
  pose proof (leer_digitos_cota (String c r) 0 ltac:(lia)) as Hb.
  remember (leer_digitos (String c r) 0) as v0 eqn:E. clear E.
  destruct (isdigit c); [| discriminate].
  assert (Hp : 0 < 10 ^ (Z.of_nat (String.length s) - 1)).
  { apply Z.pow_pos_nonneg; [lia |].
    pose proof (leer_signo_longitud (saltar_espacios s)) as H2.
    rewrite Hsig in H2. simpl in H2. lia. }
  destruct neg; intros [= <-]; [| lia].
  apply leer_signo_negativo in Hsig.
  assert (10 ^ Z.of_nat (String.length (String c r))
          <= 10 ^ (Z.of_nat (String.length s) - 1))
    by (apply Z.pow_le_mono_r; lia).
  lia.
Qed.

(** X9. Whatever its characters, an accepted text yields a year in
    [-999, 9999] and a month and a day in [-9, 99]: a field is at most four
    (two) characters, and a sign takes one of them. *)
Theorem parsear_fecha_iso_rango texto anio mes dia :
  parsear_fecha_iso texto = Ok (anio, mes, dia) ->
  - 999 <= anio <= 9999 /\ - 9 <= mes <= 99 /\ - 9 <= dia <= 99.
Proof.
  unfold parsear_fecha_iso.
  destruct (forma_rechazada texto) eqn:Hf; [discriminate |].
  assert (Hlen : String.length texto = 10%nat).
  { unfold forma_rechazada in Hf.
    apply orb_false_iff in Hf as [Hf _]. apply orb_false_iff in Hf as [Hf _].
    apply negb_false_iff, Nat.eqb_eq in Hf. exact Hf. }
  assert (Hst : forall s v, stoi s = Ok v -> strtol s = Some v).
  { intros s v. unfold stoi. destruct (strtol s) as [w |]; [| discriminate].
    destruct ((- 2 ^ 31 <=? w) && (w <? 2 ^ 31)); [| discriminate].
    intros [= <-]. reflexivity. }
  destruct (stoi (substring 0 4 texto)) as [a |] eqn:Ha; [| discriminate].
  destruct (stoi (substring 5 2 texto)) as [m |] eqn:Hm; [| discriminate].
  destruct (stoi (substring 8 2 texto)) as [d |] eqn:Hd; [| discriminate].
  cbn [ligar]. intros [= <- <- <-].
  apply Hst, strtol_cota_ajustada in Ha, Hm, Hd.
  rewrite substring_longitud_exacta in Ha, Hm, Hd by lia.
  simpl in Ha, Hm, Hd. lia.
Qed.

Lemma parsear_fecha_iso_rango_witness :
  - 999 <= -999 <= 9999 /\ - 9 <= -9 <= 99 /\ - 9 <= -9 <= 99.
Proof.
  refine (parsear_fecha_iso_rango "-999--9--9" (-999) (-9) (-9) _).
  reflexivity.
Defined.

Definition empieza_con_digito (s : string) : bool :=
  match s with
  | String c _ => isdigit c
  | EmptyString => false
  end.

Lemma stoi_empieza_con_digito s :
  empieza_con_digito s = true -> (String.length s <= 9)%nat ->
  stoi s = Ok (leer_digitos s 0).
Proof.
  destruct s as [| c r]; [discriminate |]. simpl empieza_con_digito.
  intros Hc Hlen.
  pose proof (leer_digitos_cota (String c r) 0 ltac:(lia)) as Hb.
  assert (Hs : strtol (String c r) = Some (leer_digitos (String c r) 0)).
  { unfold strtol. cbn [saltar_espacios].
    rewrite (isdigit_no_espacio c Hc), (isdigit_no_signo c r Hc), Hc.
    reflexivity. }
  unfold stoi. rewrite Hs.
  assert (10 ^ Z.of_nat (String.length (String c r)) <= 10 ^ 9)
    by (apply Z.pow_le_mono_r; lia).
  assert (Hr' : (- 2 ^ 31 <=? leer_digitos (String c r) 0)
                && (leer_digitos (String c r) 0 <? 2 ^ 31) = true)
    by (apply andb_true_iff; lia).
  rewrite Hr'. reflexivity.
Qed.

(** X10. Only the first character of each field has to be a digit: with
    the length and the two ['-'] right, the parser accepts the text and
    reads each field up to its first character that is not a digit, so
    texts such as "20a5-01-06" are parsed (as year 20) and not rejected. *)
Theorem parsear_fecha_iso_prefijos texto :
  forma_rechazada texto = false ->
  empieza_con_digito (substring 0 4 texto) = true ->
  empieza_con_digito (substring 5 2 texto) = true ->
  empieza_con_digito (substring 8 2 texto) = true ->
  parsear_fecha_iso texto =
    Ok (leer_digitos (substring 0 4 texto) 0,
        leer_digitos (substring 5 2 texto) 0,
        leer_digitos (substring 8 2 texto) 0).
Proof.
  intros Hf Ha Hm Hd. unfold parsear_fecha_iso. rewrite Hf.
  rewrite (stoi_empieza_con_digito _ Ha)
    by (pose proof (substring_longitud 0 4 texto); lia).
  rewrite (stoi_empieza_con_digito _ Hm)
    by (pose proof (substring_longitud 5 2 texto); lia).
  rewrite (stoi_empieza_con_digito _ Hd)
    by (pose proof (substring_longitud 8 2 texto); lia).
  reflexivity.
Qed.

Lemma parsear_fecha_iso_prefijos_witness :
  parsear_fecha_iso "20a5-1x-06" = Ok (20, 1, 6).
Proof.
  refine (parsear_fecha_iso_prefijos "20a5-1x-06" _ _ _ _); reflexivity.
Defined.

End PropiedadesParseo.

(** ** Properties of [edad::calcular] *)

Section PropiedadesCalcular.

(** X11. The clock is never a source of failure: [calcular] throws exactly
    when the parser throws, and then the same exception; when the parser
    accepts the text, the result is the difference of the two day-counts
    (which cannot overflow [long long]), converted to [double] and divided
    by 365.2425. *)
Theorem calcular_resultado r texto :
  match parsear_fecha_iso texto with
  | Lanza e => calcular r texto = Lanza e
  | Ok (anio, mes, dia) =>
      calcular r texto =
        Ok (double_of_Z (dias_de_tm (fecha_actual r)
                         - fecha_a_dias anio (u32 mes) (u32 dia))
            / DIAS_PROMEDIO_ANIO)%float
      /\ en_i64 (dias_de_tm (fecha_actual r)
                 - fecha_a_dias anio (u32 mes) (u32 dia))
  end.
Proof.
  destruct (parsear_fecha_iso texto) as [[[a m] d] | e] eqn:Hp.
  - split; [apply calcular_exito; exact Hp |].
    pose proof (parsear_fecha_iso_cota _ _ _ _ Hp) as (Ha & _ & _).
    pose proof (fecha_a_dias_cota a (u32 m) (u32 d) ltac:(lia)).
    pose proof (fecha_a_dias_cota (i32 (tm_year (fecha_actual r) + 1900))
      (u32 (i32 (tm_mon (fecha_actual r) + 1)))
      (u32 (tm_mday (fecha_actual r))) (i32_rango _)).
    unfold en_i64, dias_de_tm. lia.
  - apply calcular_fallo. exact Hp.
Qed.

(** X12. Of everything the clock provides, only the year, the month and
    the day of the month of the local time matter: the time of day, the
    day of the week, the day of the year, the DST flag and the value of
    [time_t] itself do not change the result. *)
Theorem calcular_solo_fecha_local r1 r2 texto :
  tm_year (fecha_actual r1) = tm_year (fecha_actual r2) ->
  tm_mon (fecha_actual r1) = tm_mon (fecha_actual r2) ->
  tm_mday (fecha_actual r1) = tm_mday (fecha_actual r2) ->
  calcular r1 texto = calcular r2 texto.
Proof.
  intros Hy Hm Hd. unfold calcular.
  assert (Hdias : dias_de_tm (fecha_actual r1) = dias_de_tm (fecha_actual r2)).
  { unfold dias_de_tm. rewrite Hy, Hm, Hd. reflexivity. }
  rewrite Hdias. reflexivity.
Qed.

Lemma calcular_solo_fecha_local_witness :
  calcular (reloj_utc 1730419200) "2004-11-01"
  = calcular (reloj_utc 1730505599) "2004-11-01".
Proof.
  refine (calcular_solo_fecha_local (reloj_utc 1730419200)
            (reloj_utc 1730505599) "2004-11-01" _ _ _); reflexivity.
Defined.

(** X13. Somebody born on the local date of the clock has age exactly
    0.0: when the parsed year, month and day are those of the clock, the
    two day-counts are computed from the same arguments. *)
Theorem calcular_nacido_hoy r texto anio mes dia :
  parsear_fecha_iso texto = Ok (anio, mes, dia) ->
  tm_year (fecha_actual r) + 1900 = anio ->
  tm_mon (fecha_actual r) + 1 = mes ->
  tm_mday (fecha_actual r) = dia ->
  calcular r texto = Ok 0%float.
Proof.
  intros Hp Hy Hm Hd.
  pose proof (parsear_fecha_iso_rango _ _ _ _ Hp) as (Ha & Hme & Hdi).
  rewrite (calcular_exito r texto anio mes dia Hp).
  unfold dias_de_tm. rewrite Hy, Hm, Hd.
  rewrite (i32_id anio) by lia. rewrite (i32_id mes) by lia.
  rewrite Z.sub_diag. reflexivity.
Qed.

Lemma calcular_nacido_hoy_witness :
  calcular (reloj_utc 1730419200) "2024-11-01" = Ok 0%float.
Proof.
  refine (calcular_nacido_hoy (reloj_utc 1730419200) "2024-11-01"
            2024 11 1 _ _ _ _); reflexivity.
Defined.

End PropiedadesCalcular.

(** ** The body shared by the two pipelines: from a line to its bucket *)

(** [!std::isnan(e) && e >= 0.0] *)
Definition edad_valida (e : float) : bool :=
  negb (PrimFloat.is_nan e) && PrimFloat.leb 0%float e.

(** [static_cast<int>(e)]: truncation towards zero.  A value that does not
    fit an [int] is undefined in C++; the model returns [INT_MIN], as the
    conversion instruction of x86 does. *)
Definition static_cast_int (e : float) : Z :=
  match Prim2SF e with
  | S754_zero _ => 0
  | S754_finite s m ex =>
      let mag := if 0 <=? ex then Z.pos m * 2 ^ ex else Z.pos m / 2 ^ (- ex) in
      let v := if s then - mag else mag in
      if (- 2 ^ 31 <=? v) && (v <? 2 ^ 31) then v else - 2 ^ 31
  | _ => - 2 ^ 31
  end.

(** [clave >= 0 && clave <= 130] *)
Definition dentro_rango (clave : Z) : bool := (0 <=? clave) && (clave <=? 130).

(** The bucket a decimal age is counted in, if any. *)
Definition clave_de_edad (e : float) : option Z :=
  if edad_valida e then
    let clave := static_cast_int e in
    if dentro_rango clave then Some clave else None
  else None.

(** What a consumer (main.cpp) or a task (the OpenMP-task variant) does
    with one line, up to the update of the histogram: an empty line is
    skipped, an exception of [calcular] is not caught. *)
Definition clave_de_linea (r : Reloj) (linea : string) : resultado (option Z) :=
  if String.eqb linea EmptyString then Ok None
  else e <- calcular r linea ;; Ok (clave_de_edad e).

(** The bucket of a difference of day-counts. *)
Definition clave_de_dias (dias : Z) : option Z :=
  clave_de_edad (double_of_Z dias / DIAS_PROMEDIO_ANIO)%float.

(** ** Counting the lines of an age *)

Section Conteo.

(** Whether a processed line was counted for the age [clave]. *)
Definition cuenta_en (clave : Z) (p : string * Reloj) : nat :=
  match clave_de_linea (snd p) (fst p) with
  | Ok (Some k) => if clave =? k then 1 else 0
  | _ => 0
  end.

Lemma sum_list_with_insert {A} (f : A -> nat) (l : list A) i h h' :
  l !! i = Some h ->
  (sum_list_with f (<[i := h']> l) + f h = sum_list_with f l + f h')%nat.
Proof.
  revert i. induction l as [| a l IH]; intros [| i] Hl; simpl in *;
    try discriminate.
  - injection Hl as ->. lia.
  - specialize (IH i Hl). lia.
Qed.

Lemma clave_de_linea_rango r linea k :
  clave_de_linea r linea = Ok (Some k) -> 0 <= k <= 130.
Proof.
  unfold clave_de_linea. destruct (String.eqb linea EmptyString); [discriminate |].
  destruct (calcular r linea) as [e | ex]; [| discriminate]. cbn [ligar].
  unfold clave_de_edad. destruct (edad_valida e); [| discriminate].
  destruct (dentro_rango (static_cast_int e)) eqn:Hd; [| discriminate].
  intros [= <-]. unfold dentro_rango in Hd. apply andb_true_iff in Hd. lia.
Qed.

Lemma sum_list_with_cota {A} (f : A -> nat) (l : list A) :
  (forall a, f a <= 1)%nat -> (sum_list_with f l <= length l)%nat.
Proof.
  intros Hf. induction l as [| a l IH]; simpl; [lia |].
  specialize (Hf a). lia.
Qed.

Lemma cuenta_en_cota k p : (cuenta_en k p <= 1)%nat.
Proof.
  unfold cuenta_en. destruct (clave_de_linea _ _) as [[k' |] | e]; try lia.
  destruct (k =? k'); lia.
Qed.

(** Two clocks that show the same local date. *)
Definition mismo_dia (r1 r2 : Reloj) : Prop :=
  tm_year (fecha_actual r1) = tm_year (fecha_actual r2)
  /\ tm_mon (fecha_actual r1) = tm_mon (fecha_actual r2)
  /\ tm_mday (fecha_actual r1) = tm_mday (fecha_actual r2).

Lemma clave_de_linea_mismo_dia r1 r2 linea :
  mismo_dia r1 r2 -> clave_de_linea r1 linea = clave_de_linea r2 linea.
Proof.
  intros (Hy & Hm & Hd). unfold clave_de_linea.
  rewrite (calcular_solo_fecha_local_aux r1 r2 linea Hy Hm Hd). reflexivity.
Qed.

Lemma cuenta_mismo_dia r k (ps : list (string * Reloj)) :
  (forall p, p ∈ ps -> mismo_dia r (snd p)) ->
  sum_list_with (cuenta_en k) ps
  = sum_list_with (fun linea => cuenta_en k (linea, r)) (map fst ps).
Proof.
  induction ps as [| p ps IH]; intros Hinv; simpl; [reflexivity |].
  rewrite IH by (intros q Hq; apply Hinv, list_elem_of_further, Hq).
  f_equal. unfold cuenta_en. simpl.
  rewrite (clave_de_linea_mismo_dia r (snd p)); [reflexivity |].
  apply Hinv, list_elem_of_here.
Qed.

Lemma sum_list_with_cero {A} (f : A -> nat) (l : list A) :
  (forall j h, l !! j = Some h -> f h = 0%nat) -> sum_list_with f l = 0%nat.
Proof.
  induction l as [| a l IH]; intros H; simpl; [reflexivity |].
  rewrite (H 0%nat a eq_refl), IH; [reflexivity |].
  intros j h Hj. apply (H (S j)). exact Hj.
Qed.

End Conteo.

(** ** main.cpp: single producer, lock-free queue, concurrent map

    The parallel region as an interleaving of atomic steps.  Each step is
    one access of a thread to the shared state ([cola], [mapa], [terminado],
    the [single] construct, [std::cerr]) together with the local code that
    leads to it.  [boost::lockfree::queue] and [concurrent_flat_map] are
    linearizable, so each of their operations is one step. *)

Module MainCola.

(** Where a thread is in the region. *)
Inductive Hilo : Type :=
| EnSingle                                  (* #pragma omp single nowait *)
| AbrirArchivo                              (* std::ifstream archivo(ruta) *)
| Getline (resto : list string)             (* while (std::getline(...)) *)
| Push (p : string) (resto : list string)   (* while (!cola.push(p)) *)
| StoreTerminado                            (* terminado.store(true) *)
| Pop                                       (* if (cola.pop(fecha)) *)
| Procesar (fecha : string)                 (* edad::calcular ... try_emplace *)
| Visit (clave : Z)                         (* mapa.visit; delete fecha *)
| LoadTerminado                             (* terminado.load() && *)
| Empty                                     (* cola.empty() *)
| Yield                                     (* std::this_thread::yield() *)
| Fuera.                                    (* break: end of the region *)

Record Estado : Type := mk_Estado {
  hilos : list Hilo;
  single : bool;               (* some thread has taken the single block *)
  cola : list string;
  mapa : gmap Z Z;
  terminado : bool;
  cerr : list string;
  abortado : bool;             (* std::terminate has been called *)
  procesadas : list (string * Reloj)
    (* history, read by no step: the lines whose processing is complete up
       to the histogram, each with the clock its age was computed with *)
}.

(** What the scheduler and the system decide at a step: the thread that
    moves, whether its [push] finds room, and the clock it reads. *)
Record Evento : Type := mk_Evento {
  ev_hilo : nat;
  ev_push : bool;
  ev_reloj : Reloj
}.

(** [mapa.try_emplace(clave, 0)] *)
Definition try_emplace (clave valor : Z) (m : gmap Z Z) : gmap Z Z :=
  match m !! clave with
  | Some _ => m
  | None => <[clave := valor]> m
  end.

(** [mapa.visit(clave, [](auto& par) { ++par.second; })]: nothing happens
    when the key is absent. *)
Definition visit_incrementa (clave : Z) (m : gmap Z Z) : gmap Z Z :=
  alter (fun v => i32 (v + 1)) clave m.

Section Region.

(** The program's input: the path, and the lines [std::getline] yields
    ([None]: the file cannot be opened). *)
Variable ruta : string.
Variable archivo : option (list string).

Definition lineas : list string := default [] archivo.

Definition con_hilo (i : nat) (h : Hilo) (s : Estado) : Estado :=
  mk_Estado (<[i := h]> (hilos s)) (single s) (cola s) (mapa s)
            (terminado s) (cerr s) (abortado s) (procesadas s).

Definition paso (s : Estado) (ev : Evento) : Estado :=
  if abortado s then s
  else
    let i := ev_hilo ev in
    match hilos s !! i with
    | None => s
    | Some EnSingle =>
        if single s then con_hilo i Pop s
        else con_hilo i AbrirArchivo
               (mk_Estado (hilos s) true (cola s) (mapa s) (terminado s)
                          (cerr s) (abortado s) (procesadas s))
    | Some AbrirArchivo =>
        match archivo with
        | None =>
            con_hilo i StoreTerminado
              (mk_Estado (hilos s) (single s) (cola s) (mapa s) (terminado s)
                         (cerr s ++ [("No se pudo abrir: " ++ ruta ++ String "010" EmptyString)%string])
                         (abortado s) (procesadas s))
        | Some ls => con_hilo i (Getline ls) s
        end
    | Some (Getline nil) => con_hilo i StoreTerminado s
    | Some (Getline (linea :: resto)) => con_hilo i (Push linea resto) s
    | Some (Push p resto) =>
        if ev_push ev
        then con_hilo i (Getline resto)
               (mk_Estado (hilos s) (single s) (cola s ++ [p]) (mapa s)
                          (terminado s) (cerr s) (abortado s) (procesadas s))
        else s
    | Some StoreTerminado =>
        con_hilo i Pop
          (mk_Estado (hilos s) (single s) (cola s) (mapa s) true
                     (cerr s) (abortado s) (procesadas s))
    | Some Pop =>
        match cola s with
        | fecha :: c =>
            con_hilo i (Procesar fecha)
              (mk_Estado (hilos s) (single s) c (mapa s) (terminado s)
                         (cerr s) (abortado s) (procesadas s))
        | nil => con_hilo i LoadTerminado s
        end
    | Some (Procesar fecha) =>
        match clave_de_linea (ev_reloj ev) fecha with
        | Lanza _ =>
            mk_Estado (hilos s) (single s) (cola s) (mapa s) (terminado s)
                      (cerr s) true (procesadas s)
        | Ok None =>
            con_hilo i Pop
              (mk_Estado (hilos s) (single s) (cola s) (mapa s) (terminado s)
                         (cerr s) (abortado s)
                         (procesadas s ++ [(fecha, ev_reloj ev)]))
        | Ok (Some clave) =>
            con_hilo i (Visit clave)
              (mk_Estado (hilos s) (single s) (cola s)
                         (try_emplace clave 0 (mapa s)) (terminado s)
                         (cerr s) (abortado s)
                         (procesadas s ++ [(fecha, ev_reloj ev)]))
        end
    | Some (Visit clave) =>
        con_hilo i Pop
          (mk_Estado (hilos s) (single s) (cola s)
                     (visit_incrementa clave (mapa s)) (terminado s)
                     (cerr s) (abortado s) (procesadas s))
    | Some LoadTerminado =>
        if terminado s then con_hilo i Empty s else con_hilo i Yield s
    | Some Empty =>
        match cola s with
        | nil => con_hilo i Fuera s
        | _ :: _ => con_hilo i Yield s
        end
    | Some Yield => con_hilo i Pop s
    | Some Fuera => s
    end.

Definition inicial (n : nat) : Estado :=
  mk_Estado (replicate n EnSingle) false [] ∅ false [] false [].

Definition ejecutar (evs : list Evento) (s : Estado) : Estado :=
  fold_left paso evs s.

(** Every thread has left its loop: the region ends and [main] goes on to
    print the map. *)
Definition es_fuera (h : Hilo) : bool :=
  match h with Fuera => true | _ => false end.

Definition region_terminada (s : Estado) : bool :=
  forallb es_fuera (hilos s).

(** Occurrences counted for an age ([0] when the map has no entry). *)
Definition ocurrencias (clave : Z) (s : Estado) : Z :=
  default 0 (mapa s !! clave).

(** *** Invariants of the region *)

(** The lines a thread holds: still to be read, being pushed, or popped
    and not processed yet. *)
Definition lineas_de_hilo (h : Hilo) : list string :=
  match h with
  | AbrirArchivo => lineas
  | Getline resto => resto
  | Push p resto => p :: resto
  | Procesar fecha => [fecha]
  | _ => []
  end.

Definition por_hacer (s : Estado) : list string :=
  (if single s then [] else lineas)
  ++ flat_map lineas_de_hilo (hilos s) ++ cola s.

(** The states of the single block. *)
Definition produce (h : Hilo) : bool :=
  match h with
  | AbrirArchivo | Getline _ | Push _ _ | StoreTerminado => true
  | _ => false
  end.

Definition visitando (clave : Z) (h : Hilo) : nat :=
  match h with
  | Visit k => if clave =? k then 1 else 0
  | _ => 0
  end.

Lemma ejecutar_inv (P : Estado -> Prop) :
  (forall s ev, P s -> P (paso s ev)) ->
  forall evs s, P s -> P (ejecutar evs s).
Proof.
  intros Hpaso evs. induction evs as [| ev evs IH]; intros s Hs; simpl.
  - exact Hs.
  - apply IH, Hpaso, Hs.
Qed.

Lemma flat_map_insert {A B} (f : A -> list B) (l : list A) i h h' :
  l !! i = Some h ->
  f h ++ flat_map f (<[i := h']> l) ≡ₚ f h' ++ flat_map f l.
Proof.
  revert i. induction l as [| a l IH]; intros [| i] Hl; simpl in *;
    try discriminate.
  - injection Hl as ->. rewrite !app_assoc.
    apply Permutation_app_tail, Permutation_app_comm.
  - specialize (IH i Hl).
    rewrite !(Permutation_app_swap_app _ (f a)).
    apply Permutation_app_head, IH.
Qed.

(** Every line of the file is, at any time, in exactly one place: still
    with the producer, in the queue, in the hands of one consumer, or
    processed. *)
Definition inv_lineas (s : Estado) : Prop :=
  map fst (procesadas s) ++ por_hacer s ≡ₚ lineas.

Lemma inv_lineas_inicial n : inv_lineas (inicial n).
Proof.
  unfold inv_lineas, por_hacer, inicial. simpl.
  assert (H : flat_map lineas_de_hilo (replicate n EnSingle) = []).
  { induction n as [| n IH]; simpl; [reflexivity | exact IH]. }
  rewrite H. simpl. rewrite app_nil_r. reflexivity.
Qed.

Lemma flat_map_insert_igual {A B} (f : A -> list B) (l : list A) i h h' :
  l !! i = Some h -> f h = f h' ->
  flat_map f (<[i := h']> l) ≡ₚ flat_map f l.
Proof.
  intros Hl Heq. pose proof (flat_map_insert f l i h h' Hl) as H.
  rewrite Heq in H. apply Permutation_app_inv_l in H. exact H.
Qed.

Lemma flat_map_insert_quita {A B} (f : A -> list B) (l : list A) i h h' x :
  l !! i = Some h -> f h = x :: f h' ->
  x :: flat_map f (<[i := h']> l) ≡ₚ flat_map f l.
Proof.
  intros Hl Heq. pose proof (flat_map_insert f l i h h' Hl) as H.
  rewrite Heq in H. simpl in H.
  rewrite (Permutation_middle (f h') _ x) in H.
  apply Permutation_app_inv_l in H. exact H.
Qed.

Lemma flat_map_insert_pone {A B} (f : A -> list B) (l : list A) i h h' :
  l !! i = Some h -> f h = [] ->
  flat_map f (<[i := h']> l) ≡ₚ f h' ++ flat_map f l.
Proof.
  intros Hl Heq. pose proof (flat_map_insert f l i h h' Hl) as H.
  rewrite Heq in H. exact H.
Qed.

Lemma inv_lineas_paso s ev : inv_lineas s -> inv_lineas (paso s ev).
Proof.
  unfold inv_lineas, por_hacer, paso. intros H.
  destruct (abortado s); [exact H |].
  destruct (hilos s !! ev_hilo ev) as [h |] eqn:Hh; [| exact H].
  pose proof (fun h' => flat_map_insert_igual lineas_de_hilo (hilos s) (ev_hilo ev) h h' Hh)
    as Higual.
  destruct h as [| | [| linea resto] | p resto | | | fecha | clave | | | |];
    simpl.
  - (* EnSingle *)
    destruct (single s) eqn:Hs; simpl; rewrite ?Hs; simpl.
    + rewrite Higual by reflexivity. exact H.
    + etransitivity; [| exact H]. apply Permutation_app_head.
      rewrite (flat_map_insert_pone lineas_de_hilo _ _ _ AbrirArchivo Hh eq_refl).
      simpl. rewrite app_assoc. reflexivity.
  - (* AbrirArchivo *)
    destruct archivo as [ls |] eqn:Ha; simpl.
    + rewrite Higual; [exact H |]. simpl. unfold lineas. rewrite Ha. reflexivity.
    + rewrite Higual; [exact H |]. simpl. unfold lineas. rewrite Ha. reflexivity.
  - rewrite Higual by reflexivity. exact H.
  - rewrite Higual by reflexivity. exact H.
  - (* Push *)
    destruct (ev_push ev); simpl; [| exact H].
    etransitivity; [| exact H]. apply Permutation_app_head, Permutation_app_head.
    rewrite <- (flat_map_insert_quita lineas_de_hilo _ _ _ (Getline resto) p Hh eq_refl).
    rewrite app_assoc, <- Permutation_cons_append. reflexivity.
  - rewrite Higual by reflexivity. exact H.
  - (* Pop *)
    destruct (cola s) as [| fecha c] eqn:Hc; simpl; rewrite ?Hc.
    + rewrite Higual by reflexivity. exact H.
    + etransitivity; [| exact H]. apply Permutation_app_head, Permutation_app_head.
      rewrite (flat_map_insert_pone lineas_de_hilo _ _ _ (Procesar fecha) Hh eq_refl).
      simpl. rewrite <- Permutation_middle. reflexivity.
  - (* Procesar *)
    assert (Hq : forall h', lineas_de_hilo h' = [] ->
      fecha :: flat_map lineas_de_hilo (<[ev_hilo ev := h']> (hilos s))
      ≡ₚ flat_map lineas_de_hilo (hilos s)).
    { intros h' Hh'. apply (flat_map_insert_quita _ _ _ _ _ _ Hh).
      rewrite Hh'. reflexivity. }
    destruct (clave_de_linea (ev_reloj ev) fecha) as [[k |] | e]; simpl;
      [| | exact H];
      rewrite map_app, <- app_assoc; simpl;
      (etransitivity; [| exact H]); apply Permutation_app_head;
      [rewrite <- (Hq (Visit k) eq_refl) | rewrite <- (Hq Pop eq_refl)];
      destruct (single s); simpl;
      rewrite <- ?Permutation_middle; reflexivity.
  - rewrite Higual by reflexivity. exact H.
  - destruct (terminado s); simpl; rewrite Higual by reflexivity; exact H.
  - destruct (cola s) as [| f c] eqn:Hc; simpl; rewrite ?Hc;
      rewrite Higual by reflexivity; exact H.
  - rewrite Higual by reflexivity. exact H.
  - exact H.
Qed.

(** Control: one thread at most runs the single block; [terminado] is
    set when that block is over and never cleared; a thread that has left
    its loop has seen [terminado] set and the queue empty, and the queue is
    empty ever since. *)
Record InvControl (s : Estado) : Prop := mk_InvControl {
  ic_single : forall i h,
    hilos s !! i = Some h -> produce h = true -> single s = true;
  ic_unico : forall i j hi hj,
    hilos s !! i = Some hi -> hilos s !! j = Some hj ->
    produce hi = true -> produce hj = true -> i = j;
  ic_terminado : terminado s = true ->
    single s = true /\ forall i h, hilos s !! i = Some h -> produce h = false;
  ic_empty : forall i, hilos s !! i = Some Empty -> terminado s = true;
  ic_fuera : forall i,
    hilos s !! i = Some Fuera -> terminado s = true /\ cola s = [];
  ic_abortado : abortado s = true ->
    exists i fecha, hilos s !! i = Some (Procesar fecha)
}.

Lemma inv_control_inicial n : InvControl (inicial n).
Proof.
  constructor; simpl; try discriminate;
    intros; repeat match goal with
    | H : replicate _ _ !! _ = Some _ |- _ =>
        apply lookup_replicate in H; destruct H as [? _]; subst
    end; discriminate.
Qed.

Local Ltac busca :=
  repeat match goal with
  | H : <[_ := _]> _ !! _ = Some _ |- _ =>
      apply list_lookup_insert_Some in H;
      destruct H as [(? & ? & ?) | (? & H)]; subst
  end.

Lemma inv_control_paso s ev : InvControl s -> InvControl (paso s ev).
Proof.
  intros H. unfold paso.
  destruct (abortado s) eqn:Hab; [exact H |].
  destruct (hilos s !! ev_hilo ev) as [h |] eqn:Hh; [| exact H].
  pose proof H as [H1 H2 H3 H4 H5 H6].
  assert (Hnp : single s = false ->
            forall j hj, hilos s !! j = Some hj -> produce hj = false).
  { intros Hs j hj Hj. destruct (produce hj) eqn:Hp; [| reflexivity].
    specialize (H1 _ _ Hj Hp). congruence. }
  assert (Hnt : single s = false -> terminado s = false).
  { intros Hs. destruct (terminado s) eqn:Ht; [| reflexivity].
    destruct (H3 eq_refl). congruence. }
  assert (Hprod : produce h = true ->
            single s = true /\ terminado s = false
            /\ (forall j hj, hilos s !! j = Some hj -> produce hj = true ->
                  j = ev_hilo ev)).
  { intros Hp. split; [eauto |].
    assert (Ht : terminado s = false).
    { destruct (terminado s) eqn:Ht; [| reflexivity].
      destruct (H3 eq_refl) as [_ Hn]. specialize (Hn _ _ Hh). congruence. }
    split; [exact Ht | eauto]. }
  assert (Hfuera : forall j, hilos s !! j = Some Fuera ->
            terminado s = true /\ cola s = []) by exact H5.
  assert (Hterm : terminado s = true ->
            forall j hj, hilos s !! j = Some hj -> produce hj = false).
  { intros Ht. destruct (H3 Ht) as [_ Hn]. exact Hn. }
  assert (Hterm' : terminado s = true -> single s = true).
  { intros Ht. destruct (H3 Ht) as [Hn _]. exact Hn. }
  destruct h as [| | [| linea resto] | p resto | | | fecha | clave | | | |];
    try (destruct (Hprod eq_refl) as (Hs & Ht & Hu)); clear Hprod;
    repeat match goal with
    | |- InvControl (if ?b then _ else _) => destruct b eqn:?
    | |- InvControl (match ?b with _ => _ end) => destruct b eqn:?
    end;
    try exact H;
    (constructor; simpl;
     [ intros i0 h0 Hl Hp
     | intros i0 j0 hi hj Hli Hlj Hpi Hpj
     | intros Ht'; split; [| intros i0 h0 Hl]
     | intros i0 Hl
     | intros i0 Hl
     | intros Ha; try congruence ];
     busca; simpl in *; try discriminate; try congruence; eauto;
     try (destruct (H5 _ Hl); congruence);
     try (rewrite (Hterm Ht' _ _ Hh) in *; discriminate);
     try (specialize (Hnp eq_refl _ _ Hl); congruence);
     try (specialize (Hnp eq_refl _ _ Hli); congruence);
     try (specialize (Hnp eq_refl _ _ Hlj); congruence);
     try (symmetry; eauto; fail);
     try (destruct (produce h0) eqn:Hp0;
          [exfalso; specialize (Hu _ _ Hl Hp0); congruence | reflexivity]);
     try (split; [eapply H4; eassumption | assumption]);
     try (destruct (H5 _ Hl); split; congruence)).
Qed.

(** A line is in the history only if nothing was thrown while it was
    processed. *)
Definition inv_ok (s : Estado) : Prop :=
  forall p, p ∈ procesadas s ->
    exists o, clave_de_linea (snd p) (fst p) = Ok o.

Lemma inv_ok_inicial n : inv_ok (inicial n).
Proof. intros p H. apply elem_of_nil in H. contradiction. Qed.

Lemma inv_ok_paso s ev : inv_ok s -> inv_ok (paso s ev).
Proof.
  unfold inv_ok, paso. intros H.
  destruct (abortado s); [exact H |].
  destruct (hilos s !! ev_hilo ev) as [h |]; [| exact H].
  destruct h as [| | [| linea resto] | p resto | | | fecha | clave | | | |];
    repeat match goal with
    | |- forall _, _ ∈ procesadas (if ?b then _ else _) -> _ => destruct b eqn:?
    | |- forall _, _ ∈ procesadas (match ?b with _ => _ end) -> _ =>
        destruct b eqn:?
    end; simpl; try exact H;
    intros q Hq; apply elem_of_app in Hq as [Hq | Hq]; eauto;
    apply list_elem_of_singleton in Hq as ->; simpl; eauto.
Qed.

(** Each file this model covers has fewer than 2^31 lines: a counter of
    the map is an [int]. *)
Hypothesis pocas_lineas : Z.of_nat (length lineas) < 2 ^ 31.

(** The map: the count of an age, plus the threads about to increment it,
    is the number of processed lines whose age falls in it; keys exist
    when they are visited and lie in [0, 130]. *)
Record InvMapa (s : Estado) : Prop := mk_InvMapa {
  im_cuenta : forall k,
    ocurrencias k s + Z.of_nat (sum_list_with (visitando k) (hilos s))
    = Z.of_nat (sum_list_with (cuenta_en k) (procesadas s));
  im_no_neg : forall k v, mapa s !! k = Some v -> 0 <= v;
  im_visit : forall i k, hilos s !! i = Some (Visit k) -> is_Some (mapa s !! k);
  im_claves : forall k v, mapa s !! k = Some v -> 0 <= k <= 130
}.

Lemma inv_mapa_inicial n : InvMapa (inicial n).
Proof.
  constructor; unfold ocurrencias; simpl.
  - intros k. rewrite lookup_empty. simpl.
    assert (H : sum_list_with (visitando k) (replicate n EnSingle) = 0%nat).
    { induction n as [| n IH]; simpl; [reflexivity | exact IH]. }
    rewrite H. reflexivity.
  - intros k v. rewrite lookup_empty. discriminate.
  - intros i k H. apply lookup_replicate in H as [? _]. discriminate.
  - intros k v. rewrite lookup_empty. discriminate.
Qed.

Lemma ocurrencias_try_emplace k k0 m :
  default 0 (try_emplace k0 0 m !! k) = default 0 (m !! k).
Proof.
  unfold try_emplace. destruct (m !! k0) as [v |] eqn:H0; [reflexivity |].
  destruct (decide (k0 = k)) as [-> | Hne].
  - rewrite lookup_insert_eq, H0. reflexivity.
  - rewrite lookup_insert_ne by exact Hne. reflexivity.
Qed.

Lemma inv_mapa_ext s s' :
  hilos s' = hilos s -> mapa s' = mapa s -> procesadas s' = procesadas s ->
  InvMapa s -> InvMapa s'.
Proof.
  intros Eh Em Ep [H1 H2 H3 H4].
  constructor; unfold ocurrencias; rewrite ?Eh, ?Em, ?Ep; assumption.
Qed.

Lemma inv_mapa_paso s ev :
  inv_lineas s -> InvMapa s -> InvMapa (paso s ev).
Proof.
  intros Hlin H. unfold paso.
  destruct (abortado s) eqn:Hab; [exact H |].
  destruct (hilos s !! ev_hilo ev) as [h |] eqn:Hh; [| exact H].
  pose proof H as [H1 H2 H3 H4].
  pose proof (fun k h' => sum_list_with_insert (visitando k) (hilos s)
                            (ev_hilo ev) h h' Hh) as Hins.
  assert (Hlen : Z.of_nat (length (procesadas s)) < 2 ^ 31).
  { apply Permutation_length in Hlin. rewrite length_app, length_map in Hlin.
    lia. }
  assert (Hsolo : forall s' h',
            hilos s' = <[ev_hilo ev := h']> (hilos s) ->
            mapa s' = mapa s -> procesadas s' = procesadas s ->
            (forall k, visitando k h = 0%nat) ->
            (forall k, visitando k h' = 0%nat) ->
            InvMapa s').
  { intros s' h' Eh Em Ep Hv Hv'.
    constructor; unfold ocurrencias; rewrite ?Eh, ?Em, ?Ep.
    - intros k. specialize (Hins k h'). rewrite Hv, Hv' in Hins.
      rewrite <- (H1 k). unfold ocurrencias. lia.
    - exact H2.
    - intros i k Hi. apply list_lookup_insert_Some in Hi.
      destruct Hi as [(? & ? & ?) | (? & Hi)]; [subst | eauto].
      specialize (Hv' k). simpl in Hv'. rewrite Z.eqb_refl in Hv'. discriminate.
    - exact H4. }
  destruct h as [| | [| linea resto] | p resto | | | fecha | clave | | | |];
    repeat match goal with
    | |- InvMapa (if ?b then _ else _) => destruct b eqn:?
    | |- InvMapa (match ?b with _ => _ end) => destruct b eqn:?
    end;
    try exact H;
    try (eapply Hsolo; reflexivity);
    try (eapply inv_mapa_ext; [| | | exact H]; reflexivity).
  - (* Procesar, counted for the age [z] *)
    rename z into k0.
    pose proof (clave_de_linea_rango _ _ _ Heqr) as Hk0.
    constructor; unfold ocurrencias; simpl.
    + intros k. rewrite ocurrencias_try_emplace.
      specialize (Hins k (Visit k0)). simpl in Hins.
      rewrite sum_list_with_app. simpl. unfold cuenta_en at 2. simpl.
      rewrite Heqr. specialize (H1 k). unfold ocurrencias in H1. lia.
    + intros k v. unfold try_emplace.
      destruct (mapa s !! k0) eqn:E; [apply H2 |].
      intros Hl. apply lookup_insert_Some in Hl as [[_ <-] | [_ Hl]]; [lia | eauto].
    + intros i k Hi. apply list_lookup_insert_Some in Hi.
      destruct Hi as [(_ & [= <-] & _) | (_ & Hi)].
      * unfold try_emplace. destruct (mapa s !! k0) eqn:E; [rewrite E; eauto |].
        rewrite lookup_insert_eq. eauto.
      * specialize (H3 _ _ Hi). unfold try_emplace.
        destruct (mapa s !! k0) eqn:E; [exact H3 |].
        destruct (decide (k0 = k)) as [-> | Hne];
          [rewrite lookup_insert_eq; eauto | rewrite lookup_insert_ne by exact Hne; exact H3].
    + intros k v. unfold try_emplace.
      destruct (mapa s !! k0) eqn:E; [apply H4 |].
      intros Hl. apply lookup_insert_Some in Hl as [[<- _] | [_ Hl]]; [lia | eauto].
  - (* Procesar, not counted *)
    constructor; unfold ocurrencias; simpl.
    + intros k. specialize (Hins k Pop). simpl in Hins.
      rewrite sum_list_with_app. simpl. unfold cuenta_en at 2. simpl.
      rewrite Heqr. specialize (H1 k). unfold ocurrencias in H1. lia.
    + exact H2.
    + intros i k Hi. apply list_lookup_insert_Some in Hi.
      destruct Hi as [(_ & [=] & _) | (_ & Hi)]. eauto.
    + exact H4.
  - (* Visit *)
    destruct (H3 _ _ Hh) as [v Hv].
    pose proof (H2 _ _ Hv) as Hv0.
    assert (Hcota : v + 1 < 2 ^ 31).
    { pose proof (H1 clave) as Hc. unfold ocurrencias in Hc. rewrite Hv in Hc.
      simpl in Hc.
      pose proof (sum_list_with_cota (cuenta_en clave) (procesadas s)
                    (cuenta_en_cota clave)).
      assert (1 <= sum_list_with (visitando clave) (hilos s))%nat.
      { clear - Hh. revert Hh. generalize (ev_hilo ev).
        induction (hilos s) as [| a l IH]; intros [| i] Hi; simpl in *;
          try discriminate.
        - injection Hi as ->. simpl. rewrite Z.eqb_refl. lia.
        - specialize (IH _ Hi). lia. }
      lia. }
    constructor; unfold ocurrencias, visit_incrementa; simpl.
    + intros k. specialize (Hins k Pop). simpl in Hins.
      specialize (H1 k). unfold ocurrencias in H1.
      rewrite lookup_alter.
      destruct (decide (clave = k)) as [<- | Hne].
      * rewrite Hv in *. simpl in *.
        rewrite Z.eqb_refl in Hins. rewrite i32_id by lia. lia.
      * assert (E : (k =? clave) = false) by (apply Z.eqb_neq; congruence).
        rewrite E in Hins. lia.
    + intros k w. rewrite lookup_alter.
      destruct (decide (clave = k)) as [<- | Hne].
      * rewrite Hv. simpl. intros [= <-]. rewrite i32_id by lia. lia.
      * apply H2.
    + intros i k Hi. apply list_lookup_insert_Some in Hi.
      destruct Hi as [(_ & [=] & _) | (_ & Hi)].
      specialize (H3 _ _ Hi). rewrite lookup_alter.
      destruct (decide (clave = k)) as [<- | Hne]; [| exact H3].
      rewrite Hv. simpl. eauto.
    + intros k w. rewrite lookup_alter.
      destruct (decide (clave = k)) as [<- | Hne]; [| apply H4].
      rewrite Hv. simpl. intros _. eapply H4, Hv.
Qed.

(** *** What holds in every reachable state *)

Lemma ejecutar_app evs1 evs2 s :
  ejecutar (evs1 ++ evs2) s = ejecutar evs2 (ejecutar evs1 s).
Proof. unfold ejecutar. apply fold_left_app. Qed.

Lemma alcanzable_control n evs : InvControl (ejecutar evs (inicial n)).
Proof.
  apply ejecutar_inv; [intros; apply inv_control_paso; assumption |].
  apply inv_control_inicial.
Qed.

Lemma alcanzable_lineas n evs : inv_lineas (ejecutar evs (inicial n)).
Proof.
  apply ejecutar_inv; [intros; apply inv_lineas_paso; assumption |].
  apply inv_lineas_inicial.
Qed.

Lemma alcanzable_ok n evs : inv_ok (ejecutar evs (inicial n)).
Proof.
  apply ejecutar_inv; [intros; apply inv_ok_paso; assumption |].
  apply inv_ok_inicial.
Qed.

Lemma alcanzable_mapa n evs : InvMapa (ejecutar evs (inicial n)).
Proof.
  assert (H : inv_lineas (ejecutar evs (inicial n))
              /\ InvMapa (ejecutar evs (inicial n))).
  { apply (ejecutar_inv (fun s => inv_lineas s /\ InvMapa s)).
    - intros s ev [Hl Hm]. split;
        [apply inv_lineas_paso | apply inv_mapa_paso]; assumption.
    - split; [apply inv_lineas_inicial | apply inv_mapa_inicial]. }
  apply H.
Qed.

Lemma alcanzable_hilos n evs : length (hilos (ejecutar evs (inicial n))) = n.
Proof.
  apply (ejecutar_inv (fun s => length (hilos s) = n)).
  - intros s ev Hs. unfold paso.
    destruct (abortado s); [exact Hs |].
    destruct (hilos s !! ev_hilo ev) as [h |]; [| exact Hs].
    destruct h as [| | [| linea resto] | p resto | | | fecha | clave | | | |];
      repeat match goal with
      | |- length (hilos (if ?b then _ else _)) = _ => destruct b
      | |- length (hilos (match ?b with _ => _ end)) = _ => destruct b
      end; simpl; rewrite ?length_insert; exact Hs.
  - simpl. apply length_replicate.
Qed.

Lemma region_terminada_fuera s i h :
  region_terminada s = true -> hilos s !! i = Some h -> h = Fuera.
Proof.
  unfold region_terminada. intros Hf Hi.
  rewrite forallb_forall in Hf.
  assert (Hin : In h (hilos s)).
  { apply list_elem_of_In, list_elem_of_lookup. eauto. }
  specialize (Hf _ Hin). destruct h; try discriminate. reflexivity.
Qed.

Lemma sin_lineas_en_fuera (l : list Hilo) :
  (forall i h, l !! i = Some h -> h = Fuera) ->
  flat_map lineas_de_hilo l = []
  /\ forall k, sum_list_with (visitando k) l = 0%nat.
Proof.
  induction l as [| a l IH]; intros H; simpl; [split; reflexivity |].
  pose proof (H 0%nat a eq_refl) as ->.
  destruct IH as [IH1 IH2]; [intros i h Hi; apply (H (S i)); exact Hi |].
  simpl. split; [exact IH1 | exact IH2].
Qed.

Definition inv_dia (r : Reloj) (s : Estado) : Prop :=
  forall p, p ∈ procesadas s -> mismo_dia r (snd p).

Lemma inv_dia_paso r s ev :
  mismo_dia r (ev_reloj ev) -> inv_dia r s -> inv_dia r (paso s ev).
Proof.
  unfold inv_dia, paso. intros Hev H.
  destruct (abortado s); [exact H |].
  destruct (hilos s !! ev_hilo ev) as [h |]; [| exact H].
  destruct h as [| | [| linea resto] | p resto | | | fecha | clave | | | |];
    repeat match goal with
    | |- forall _, _ ∈ procesadas (if ?b then _ else _) -> _ => destruct b eqn:?
    | |- forall _, _ ∈ procesadas (match ?b with _ => _ end) -> _ =>
        destruct b eqn:?
    end; simpl; try exact H;
    intros q Hq; apply elem_of_app in Hq as [Hq | Hq]; eauto;
    apply list_elem_of_singleton in Hq as ->; simpl; exact Hev.
Qed.

Lemma inv_dia_ejecutar r evs : forall s,
  Forall (fun ev => mismo_dia r (ev_reloj ev)) evs ->
  inv_dia r s -> inv_dia r (ejecutar evs s).
Proof.
  induction evs as [| ev evs IH]; intros s Hf Hs; simpl; [exact Hs |].
  inversion Hf as [| ? ? Hev Hf']; subst.
  apply IH; [exact Hf' |]. apply inv_dia_paso; assumption.
Qed.

(** When every thread is out of its loop, nothing is left to do and no
    increment is pending. *)
Lemma region_terminada_vacia n evs :
  (0 < n)%nat ->
  region_terminada (ejecutar evs (inicial n)) = true ->
  abortado (ejecutar evs (inicial n)) = false
  /\ cola (ejecutar evs (inicial n)) = []
  /\ por_hacer (ejecutar evs (inicial n)) = []
  /\ forall k,
       sum_list_with (visitando k) (hilos (ejecutar evs (inicial n))) = 0%nat.
Proof.
  intros Hn Hfin.
  pose proof (alcanzable_control n evs) as [_ _ H3 _ H5 H6].
  pose proof (alcanzable_hilos n evs) as Hlen.
  set (s := ejecutar evs (inicial n)) in *.
  pose proof (region_terminada_fuera s) as Hf.
  destruct (sin_lineas_en_fuera (hilos s)) as [Hfl Hvis]; [eauto |].
  destruct (hilos s) as [| h0 hs] eqn:Hh; [simpl in Hlen; lia |].
  pose proof (Hf 0%nat h0 Hfin eq_refl) as ->.
  destruct (H5 0%nat eq_refl) as [Ht Hc].
  destruct (H3 Ht) as [Hs _].
  split; [| split; [exact Hc | split; [| exact Hvis]]].
  - destruct (abortado s) eqn:Hab; [| reflexivity].
    destruct (H6 eq_refl) as (i & f & Hi).
    specialize (Hf i _ Hfin Hi). discriminate.
  - unfold por_hacer. rewrite Hs, Hc, Hh, Hfl. reflexivity.
Qed.

(** X14. When the region of main.cpp ends with at least one thread (every
    thread out of its loop), [std::terminate] was not called, the queue is
    empty, every line of the file has been processed exactly once, and for
    each age the count in the map is the number of processed lines whose
    age, computed with the clock of that moment, truncates to it: no update
    is lost and none is made twice, whatever the number of threads and the
    interleaving. *)
Theorem region_terminada_conserva n evs :
  (0 < n)%nat ->
  region_terminada (ejecutar evs (inicial n)) = true ->
  abortado (ejecutar evs (inicial n)) = false
  /\ cola (ejecutar evs (inicial n)) = []
  /\ map fst (procesadas (ejecutar evs (inicial n))) ≡ₚ lineas
  /\ forall k,
       ocurrencias k (ejecutar evs (inicial n))
       = Z.of_nat (sum_list_with (cuenta_en k)
                     (procesadas (ejecutar evs (inicial n)))).
Proof.
  intros Hn Hfin.
  destruct (region_terminada_vacia n evs Hn Hfin) as (Hab & Hc & Hph & Hvis).
  pose proof (alcanzable_lineas n evs) as Hlin.
  pose proof (alcanzable_mapa n evs) as [Hcuenta _ _ _].
  unfold inv_lineas in Hlin. rewrite Hph, app_nil_r in Hlin.
  repeat split; try assumption.
  intros k. specialize (Hcuenta k). rewrite Hvis in Hcuenta.
  simpl in Hcuenta. lia.
Qed.

(** X15. If moreover every clock read during the run shows the local date
    of [r] (the run does not cross midnight), the count of each age is the
    number of lines of the file whose age on that date truncates to it. *)
Theorem region_terminada_histograma n evs r :
  (0 < n)%nat ->
  Forall (fun ev => mismo_dia r (ev_reloj ev)) evs ->
  region_terminada (ejecutar evs (inicial n)) = true ->
  forall k,
    ocurrencias k (ejecutar evs (inicial n))
    = Z.of_nat (sum_list_with (fun linea => cuenta_en k (linea, r)) lineas).
Proof.
  intros Hn Hdia Hfin k.
  destruct (region_terminada_vacia n evs Hn Hfin) as (_ & _ & Hph & Hvis).
  pose proof (alcanzable_lineas n evs) as Hlin.
  pose proof (alcanzable_mapa n evs) as [Hcuenta _ _ _].
  unfold inv_lineas in Hlin. rewrite Hph, app_nil_r in Hlin.
  specialize (Hcuenta k). rewrite Hvis in Hcuenta. simpl in Hcuenta.
  rewrite Z.add_0_r in Hcuenta. rewrite Hcuenta. f_equal. rewrite <- Hlin.
  apply cuenta_mismo_dia.
  apply inv_dia_ejecutar; [exact Hdia |].
  intros p Hp. apply elem_of_nil in Hp. contradiction.
Qed.

Lemma paso_entra (s : Estado) ev i (destino : Hilo) :
  hilos (paso s ev) !! i = Some destino -> hilos s !! i <> Some destino ->
  ev_hilo ev = i /\ abortado s = false
  /\ exists h, hilos s !! i = Some h /\ h <> destino.
Proof.
  unfold paso.
  destruct (abortado s); [congruence |].
  destruct (hilos s !! ev_hilo ev) as [h |] eqn:Hh; [| congruence].
  assert (Hgen : forall h' s', hilos s' = <[ev_hilo ev := h']> (hilos s) ->
            hilos s' !! i = Some destino -> hilos s !! i <> Some destino ->
            ev_hilo ev = i /\ false = false
            /\ exists h0, hilos s !! i = Some h0 /\ h0 <> destino).
  { intros h' s' -> Hi Hne. apply list_lookup_insert_Some in Hi.
    destruct Hi as [(<- & _ & _) | (_ & Hi)]; [| congruence].
    repeat split. exists h. split; [exact Hh | congruence]. }
  destruct h as [| | [| linea resto] | p resto | | | fecha | clave | | | |];
    repeat match goal with
    | |- hilos (if ?b then _ else _) !! _ = _ -> _ => destruct b eqn:?
    | |- hilos (match ?b with _ => _ end) !! _ = _ -> _ => destruct b eqn:?
    end; try congruence;
    try (eapply Hgen; reflexivity).
  simpl. congruence.
Qed.

(** X16. A thread leaves its loop only through the conjunction.  Whatever
    the state, the step that takes a thread out of the loop is its
    [cola.empty()] check with the queue empty; it gets to that check only
    from its read of [terminado], read as set; and to that read only from
    a [pop] on the empty queue.  When one of the two checks fails the
    thread yields and tries [pop] again.  In every reachable state, a
    thread at the [cola.empty()] check has [terminado] set, and as soon as
    one thread is out of its loop [terminado] is set, the queue is empty
    and no thread is in the single block. *)
Theorem salida_del_bucle n evs :
  let s := ejecutar evs (inicial n) in
  (forall i, hilos s !! i = Some Fuera ->
     terminado s = true /\ cola s = [] /\ single s = true
     /\ forall j h, hilos s !! j = Some h -> produce h = false)
  /\ (forall i, hilos s !! i = Some Empty -> terminado s = true)
  /\ (forall (t : Estado) ev i,
        (hilos (paso t ev) !! i = Some Fuera -> hilos t !! i <> Some Fuera ->
         ev_hilo ev = i /\ hilos t !! i = Some Empty /\ cola t = [])
        /\ (hilos (paso t ev) !! i = Some Empty ->
            hilos t !! i <> Some Empty ->
            ev_hilo ev = i /\ hilos t !! i = Some LoadTerminado
            /\ terminado t = true)
        /\ (hilos (paso t ev) !! i = Some LoadTerminado ->
            hilos t !! i <> Some LoadTerminado ->
            ev_hilo ev = i /\ hilos t !! i = Some Pop /\ cola t = [])
        /\ (abortado t = false -> ev_hilo ev = i ->
            hilos t !! i = Some LoadTerminado -> terminado t = false ->
            hilos (paso t ev) !! i = Some Yield)
        /\ (abortado t = false -> ev_hilo ev = i ->
            hilos t !! i = Some Empty -> cola t <> [] ->
            hilos (paso t ev) !! i = Some Yield)
        /\ (abortado t = false -> ev_hilo ev = i ->
            hilos t !! i = Some Yield ->
            hilos (paso t ev) !! i = Some Pop)).
Proof.
  intros s. pose proof (alcanzable_control n evs) as [_ _ H3 H4 H5 _].
  fold s in H3, H4, H5.
  split; [| split; [exact H4 |]].
  - intros i Hi. destruct (H5 i Hi) as [Ht Hc].
    destruct (H3 Ht) as [Hs Hp]. auto.
  - intros t ev i.
    repeat split.
    + destruct (paso_entra t ev i Fuera H H0) as (E & _). exact E.
    + destruct (paso_entra t ev i Fuera H H0) as (E & Hab & h & Hh & Hne).
      revert H. unfold paso. rewrite Hab, E, Hh.
      assert (Hi : (i < length (hilos t))%nat) by (eapply lookup_lt_Some; eauto).
      destruct h as [| | [| linea resto] | p resto | | | fecha | clave | | | |];
        repeat match goal with
        | |- hilos (if ?b then _ else _) !! _ = _ -> _ => destruct b eqn:?
        | |- hilos (match ?b with _ => _ end) !! _ = _ -> _ => destruct b eqn:?
        end; simpl; rewrite ?list_lookup_insert_eq by exact Hi;
        congruence.
    + destruct (paso_entra t ev i Fuera H H0) as (E & Hab & h & Hh & Hne).
      revert H. unfold paso. rewrite Hab, E, Hh.
      assert (Hi : (i < length (hilos t))%nat) by (eapply lookup_lt_Some; eauto).
      destruct h as [| | [| linea resto] | p resto | | | fecha | clave | | | |];
        repeat match goal with
        | |- hilos (if ?b then _ else _) !! _ = _ -> _ => destruct b eqn:?
        | |- hilos (match ?b with _ => _ end) !! _ = _ -> _ => destruct b eqn:?
        end; simpl; rewrite ?list_lookup_insert_eq by exact Hi;
        congruence.
    + destruct (paso_entra t ev i Empty H H0) as (E & _). exact E.
    + destruct (paso_entra t ev i Empty H H0) as (E & Hab & h & Hh & Hne).
      revert H. unfold paso. rewrite Hab, E, Hh.
      assert (Hi : (i < length (hilos t))%nat) by (eapply lookup_lt_Some; eauto).
      destruct h as [| | [| linea resto] | p resto | | | fecha | clave | | | |];
        repeat match goal with
        | |- hilos (if ?b then _ else _) !! _ = _ -> _ => destruct b eqn:?
        | |- hilos (match ?b with _ => _ end) !! _ = _ -> _ => destruct b eqn:?
        end; simpl; rewrite ?list_lookup_insert_eq by exact Hi;
        congruence.
    + destruct (paso_entra t ev i Empty H H0) as (E & Hab & h & Hh & Hne).
      revert H. unfold paso. rewrite Hab, E, Hh.
      assert (Hi : (i < length (hilos t))%nat) by (eapply lookup_lt_Some; eauto).
      destruct h as [| | [| linea resto] | p resto | | | fecha | clave | | | |];
        repeat match goal with
        | |- hilos (if ?b then _ else _) !! _ = _ -> _ => destruct b eqn:?
        | |- hilos (match ?b with _ => _ end) !! _ = _ -> _ => destruct b eqn:?
        end; simpl; rewrite ?list_lookup_insert_eq by exact Hi;
        congruence.
    + destruct (paso_entra t ev i LoadTerminado H H0) as (E & _). exact E.
    + destruct (paso_entra t ev i LoadTerminado H H0) as (E & Hab & h & Hh & Hne).
      revert H. unfold paso. rewrite Hab, E, Hh.
      assert (Hi : (i < length (hilos t))%nat) by (eapply lookup_lt_Some; eauto).
      destruct h as [| | [| linea resto] | p resto | | | fecha | clave | | | |];
        repeat match goal with
        | |- hilos (if ?b then _ else _) !! _ = _ -> _ => destruct b eqn:?
        | |- hilos (match ?b with _ => _ end) !! _ = _ -> _ => destruct b eqn:?
        end; simpl; rewrite ?list_lookup_insert_eq by exact Hi;
        congruence.
    + destruct (paso_entra t ev i LoadTerminado H H0) as (E & Hab & h & Hh & Hne).
      revert H. unfold paso. rewrite Hab, E, Hh.
      assert (Hi : (i < length (hilos t))%nat) by (eapply lookup_lt_Some; eauto).
      destruct h as [| | [| linea resto] | p resto | | | fecha | clave | | | |];
        repeat match goal with
        | |- hilos (if ?b then _ else _) !! _ = _ -> _ => destruct b eqn:?
        | |- hilos (match ?b with _ => _ end) !! _ = _ -> _ => destruct b eqn:?
        end; simpl; rewrite ?list_lookup_insert_eq by exact Hi;
        congruence.
    + intros Hab E Hh Ht. unfold paso. rewrite Hab, E, Hh, Ht. simpl.
      apply list_lookup_insert_eq. eapply lookup_lt_Some; eauto.
    + intros Hab E Hh Hc. unfold paso. rewrite Hab, E, Hh.
      destruct (cola t); [congruence |]. simpl.
      apply list_lookup_insert_eq. eapply lookup_lt_Some; eauto.
    + intros Hab E Hh. unfold paso. rewrite Hab, E, Hh. simpl.
      apply list_lookup_insert_eq. eapply lookup_lt_Some; eauto.
Qed.

(** X17. A line that is not empty and that the parser rejects is never
    skipped: [calcular] throws, nothing in the region catches it, and the
    region cannot end normally, whatever the schedule. *)
Theorem linea_rechazada_no_termina n evs linea e :
  (0 < n)%nat ->
  linea ∈ lineas -> linea <> EmptyString ->
  parsear_fecha_iso linea = Lanza e ->
  region_terminada (ejecutar evs (inicial n)) = false.
Proof.
  intros Hn Hin Hne Hp.
  destruct (region_terminada (ejecutar evs (inicial n))) eqn:Hfin;
    [| reflexivity].
  exfalso.
  pose proof (alcanzable_control n evs) as [_ _ H3 _ H5 _].
  pose proof (alcanzable_lineas n evs) as Hlin.
  pose proof (alcanzable_ok n evs) as Hok.
  pose proof (alcanzable_hilos n evs) as Hlen.
  set (s := ejecutar evs (inicial n)) in *.
  pose proof (region_terminada_fuera s) as Hf.
  destruct (sin_lineas_en_fuera (hilos s)) as [Hfl _]; [eauto |].
  destruct (hilos s) as [| h0 hs] eqn:Hh; [simpl in Hlen; lia |].
  pose proof (Hf 0%nat h0 Hfin eq_refl) as ->.
  destruct (H5 0%nat eq_refl) as [Ht Hc].
  destruct (H3 Ht) as [Hs _].
  unfold inv_lineas, por_hacer in Hlin.
  rewrite Hs, Hc, Hh, Hfl in Hlin. simpl in Hlin. rewrite app_nil_r in Hlin.
  rewrite <- Hlin in Hin. apply list_elem_of_fmap in Hin as ([l r] & -> & Hin).
  destruct (Hok _ Hin) as [o Ho]. simpl in *.
  unfold clave_de_linea in Ho.
  destruct (String.eqb_spec l EmptyString) as [-> | _]; [congruence |].
  rewrite (proj2 (calcular_fallo r l e) Hp) in Ho. discriminate.
Qed.

(** *** Executions that exist: one thread does everything in turn *)

(** The fields that decide the control flow. *)
Record Forma : Type := mk_Forma {
  f_hilos : list Hilo;
  f_single : bool;
  f_cola : list string;
  f_terminado : bool;
  f_abortado : bool
}.

Definition forma (s : Estado) : Forma :=
  mk_Forma (hilos s) (single s) (cola s) (terminado s) (abortado s).

Lemma forma_eq s h si c t a :
  forma s = mk_Forma h si c t a ->
  hilos s = h /\ single s = si /\ cola s = c
  /\ terminado s = t /\ abortado s = a.
Proof. intros [= <- <- <- <- <-]. repeat split. Qed.

Definition ev_de (r : Reloj) (i : nat) : Evento := mk_Evento i true r.

(** The producer reads and pushes what is left of the file, then sets
    [terminado] and enters the consumer loop. *)
Lemma fase_productor (r : Reloj) i resto : forall s,
  hilos s !! i = Some (Getline resto) -> abortado s = false ->
  exists evs,
    forma (ejecutar evs s) =
    mk_Forma (<[i := Pop]> (hilos s)) (single s) (cola s ++ resto) true false.
Proof.
  induction resto as [| linea resto IH]; intros s Hh Hab.
  - assert (Hi : (i < length (hilos s))%nat) by (eapply lookup_lt_Some; eauto).
    set (s1 := paso s (ev_de r i)).
    assert (E1 : s1 = con_hilo i StoreTerminado s).
    { unfold s1, paso. simpl. rewrite Hab, Hh. reflexivity. }
    exists [ev_de r i; ev_de r i].
    change (ejecutar [ev_de r i; ev_de r i] s) with (paso s1 (ev_de r i)).
    unfold paso. rewrite E1. simpl.
    rewrite Hab. rewrite list_lookup_insert_eq by exact Hi.
    unfold forma. simpl. rewrite list_insert_insert_eq, app_nil_r.
    reflexivity.
  - assert (Hi : (i < length (hilos s))%nat) by (eapply lookup_lt_Some; eauto).
    set (s1 := paso s (ev_de r i)).
    assert (E1 : s1 = con_hilo i (Push linea resto) s).
    { unfold s1, paso. simpl. rewrite Hab, Hh. reflexivity. }
    set (s2 := paso s1 (ev_de r i)).
    assert (E2 : s2 = con_hilo i (Getline resto)
                   (mk_Estado (hilos s1) (single s1) (cola s1 ++ [linea])
                      (mapa s1) (terminado s1) (cerr s1) (abortado s1)
                      (procesadas s1))).
    { unfold s2, paso. rewrite E1. simpl.
      rewrite Hab. rewrite list_lookup_insert_eq by exact Hi. reflexivity. }
    destruct (IH s2) as [evs Hevs].
    + rewrite E2. simpl. rewrite E1. simpl.
      apply list_lookup_insert_eq. rewrite length_insert. exact Hi.
    + rewrite E2, E1. simpl. exact Hab.
    + exists (ev_de r i :: ev_de r i :: evs).
      change (ejecutar (ev_de r i :: ev_de r i :: evs) s)
        with (ejecutar evs s2).
      rewrite Hevs. rewrite E2, E1. simpl.
      rewrite !list_insert_insert_eq, <- app_assoc. reflexivity.
Qed.

Local Ltac da_paso Hab Hh :=
  unfold paso; cbn [ev_hilo ev_push ev_reloj ev_de]; rewrite Hab, Hh.

(** The first thread takes the single block, opens the file and, when it
    cannot, reports it. *)
Lemma fase_inicio (r : Reloj) n :
  (0 < n)%nat ->
  exists evs,
    forma (ejecutar evs (inicial n)) =
    mk_Forma (<[0%nat := Pop]> (replicate n EnSingle)) true lineas true false.
Proof.
  intros Hn.
  assert (Hi : (0 < length (replicate n EnSingle))%nat)
    by (rewrite length_replicate; exact Hn).
  assert (H0 : replicate n EnSingle !! 0%nat = Some EnSingle)
    by (apply lookup_replicate_2; exact Hn).
  set (s1 := paso (inicial n) (ev_de r 0)).
  assert (E1 : s1 = mk_Estado (<[0%nat := AbrirArchivo]> (replicate n EnSingle))
                      true [] ∅ false [] false []).
  { unfold s1. unfold paso. simpl. rewrite H0. reflexivity. }
  set (s2 := paso s1 (ev_de r 0)).
  unfold lineas. destruct archivo as [ls |] eqn:Ha; simpl.
  - assert (E2 : s2 = con_hilo 0 (Getline ls) s1).
    { unfold s2, paso. rewrite E1. simpl.
      rewrite list_lookup_insert_eq by exact Hi. rewrite Ha. reflexivity. }
    destruct (fase_productor r 0 ls s2) as [evs Hevs].
    + rewrite E2, E1. simpl. apply list_lookup_insert_eq.
      rewrite length_insert. exact Hi.
    + rewrite E2, E1. reflexivity.
    + exists (ev_de r 0 :: ev_de r 0 :: evs).
      change (ejecutar (ev_de r 0 :: ev_de r 0 :: evs) (inicial n))
        with (ejecutar evs s2).
      rewrite Hevs, E2, E1. simpl. rewrite !list_insert_insert_eq. reflexivity.
  - assert (E2 : s2 = con_hilo 0 StoreTerminado
                   (mk_Estado (hilos s1) (single s1) (cola s1) (mapa s1)
                      (terminado s1)
                      (cerr s1 ++ [("No se pudo abrir: " ++ ruta
                                    ++ String "010" EmptyString)%string])
                      (abortado s1) (procesadas s1))).
    { unfold s2, paso. rewrite E1. simpl.
      rewrite list_lookup_insert_eq by exact Hi. rewrite Ha. reflexivity. }
    exists [ev_de r 0; ev_de r 0; ev_de r 0].
    change (ejecutar [ev_de r 0; ev_de r 0; ev_de r 0] (inicial n))
      with (paso s2 (ev_de r 0)).
    unfold paso. rewrite E2, E1. simpl.
    rewrite list_lookup_insert_eq by (rewrite length_insert; exact Hi).
    unfold forma. simpl. rewrite !list_insert_insert_eq. reflexivity.
Qed.

(** One thread empties the queue when no line makes [calcular] throw. *)
Lemma fase_consumo (r : Reloj) i c : forall s,
  hilos s !! i = Some Pop -> cola s = c -> abortado s = false ->
  (forall linea, linea ∈ c -> exists o, clave_de_linea r linea = Ok o) ->
  exists evs,
    forma (ejecutar evs s) =
    mk_Forma (hilos s) (single s) [] (terminado s) false.
Proof.
  induction c as [| linea c IH]; intros s Hh Hc Hab Hok.
  - exists []. unfold forma. simpl. rewrite Hc, Hab. reflexivity.
  - assert (Hi : (i < length (hilos s))%nat) by (eapply lookup_lt_Some; eauto).
    set (s1 := paso s (ev_de r i)).
    assert (E1 : s1 = con_hilo i (Procesar linea)
                   (mk_Estado (hilos s) (single s) c (mapa s) (terminado s)
                      (cerr s) (abortado s) (procesadas s))).
    { unfold s1. da_paso Hab Hh. rewrite Hc. reflexivity. }
    assert (H1 : hilos s1 !! i = Some (Procesar linea)).
    { rewrite E1. simpl. apply list_lookup_insert_eq. exact Hi. }
    assert (Hab1 : abortado s1 = false) by (rewrite E1; exact Hab).
    destruct (Hok linea (list_elem_of_here _ _)) as [o Ho].
    assert (Hsig : exists evs2 s2,
              s2 = ejecutar evs2 s1 /\ hilos s2 = hilos s
              /\ single s2 = single s /\ cola s2 = c
              /\ terminado s2 = terminado s /\ abortado s2 = false).
    { destruct o as [k |].
      - exists [ev_de r i; ev_de r i]. eexists. split; [reflexivity |].
        change (ejecutar [ev_de r i; ev_de r i] s1)
          with (paso (paso s1 (ev_de r i)) (ev_de r i)).
        assert (E2 : paso s1 (ev_de r i) =
                  con_hilo i (Visit k)
                    (mk_Estado (hilos s1) (single s1) (cola s1)
                       (try_emplace k 0 (mapa s1)) (terminado s1) (cerr s1)
                       (abortado s1)
                       (procesadas s1 ++ [(linea, r)]))).
        { da_paso Hab1 H1. rewrite Ho. reflexivity. }
        rewrite E2. unfold paso. simpl. rewrite Hab1.
        rewrite list_lookup_insert_eq
          by (rewrite E1; simpl; rewrite length_insert; exact Hi).
        rewrite E1. simpl. rewrite !list_insert_insert_eq.
        rewrite (list_insert_id _ _ _ Hh). auto.
      - exists [ev_de r i]. eexists. split; [reflexivity |].
        change (ejecutar [ev_de r i] s1) with (paso s1 (ev_de r i)).
        da_paso Hab1 H1. rewrite Ho. rewrite E1. simpl.
        rewrite !list_insert_insert_eq.
        rewrite (list_insert_id _ _ _ Hh). auto. }
    destruct Hsig as (evs2 & s2 & -> & Eh & Es & Ec & Et & Ea).
    destruct (IH (ejecutar evs2 s1)) as [evs3 Hevs3].
    + rewrite Eh. exact Hh.
    + exact Ec.
    + exact Ea.
    + intros l Hl. apply Hok, list_elem_of_further, Hl.
    + exists (ev_de r i :: evs2 ++ evs3).
      change (ejecutar (ev_de r i :: evs2 ++ evs3) s)
        with (ejecutar (evs2 ++ evs3) s1).
      rewrite ejecutar_app, Hevs3, Eh, Es, Et. reflexivity.
Qed.

(** With a line in the queue that makes [calcular] throw, the same thread
    ends up calling [std::terminate]. *)
Lemma fase_consumo_aborta (r : Reloj) i c : forall s,
  hilos s !! i = Some Pop -> cola s = c -> abortado s = false ->
  (exists linea e, linea ∈ c /\ clave_de_linea r linea = Lanza e) ->
  exists evs, abortado (ejecutar evs s) = true.
Proof.
  induction c as [| linea c IH]; intros s Hh Hc Hab (l & e & Hl & He).
  - apply elem_of_nil in Hl. contradiction.
  - assert (Hi : (i < length (hilos s))%nat) by (eapply lookup_lt_Some; eauto).
    set (s1 := paso s (ev_de r i)).
    assert (E1 : s1 = con_hilo i (Procesar linea)
                   (mk_Estado (hilos s) (single s) c (mapa s) (terminado s)
                      (cerr s) (abortado s) (procesadas s))).
    { unfold s1. da_paso Hab Hh. rewrite Hc. reflexivity. }
    assert (H1 : hilos s1 !! i = Some (Procesar linea)).
    { rewrite E1. simpl. apply list_lookup_insert_eq. exact Hi. }
    assert (Hab1 : abortado s1 = false) by (rewrite E1; exact Hab).
    destruct (clave_de_linea r linea) as [o | e'] eqn:Ho.
    2: { exists [ev_de r i; ev_de r i].
         change (ejecutar [ev_de r i; ev_de r i] s)
           with (paso s1 (ev_de r i)).
         da_paso Hab1 H1. rewrite Ho. reflexivity. }
    assert (Hl' : l ∈ c).
    { apply elem_of_cons in Hl as [-> | Hl]; [congruence | exact Hl]. }
    assert (Hsig : exists evs2 s2,
              s2 = ejecutar evs2 s1 /\ hilos s2 = hilos s
              /\ cola s2 = c /\ abortado s2 = false).
    { destruct o as [k |].
      - exists [ev_de r i; ev_de r i]. eexists. split; [reflexivity |].
        change (ejecutar [ev_de r i; ev_de r i] s1)
          with (paso (paso s1 (ev_de r i)) (ev_de r i)).
        assert (E2 : paso s1 (ev_de r i) =
                  con_hilo i (Visit k)
                    (mk_Estado (hilos s1) (single s1) (cola s1)
                       (try_emplace k 0 (mapa s1)) (terminado s1) (cerr s1)
                       (abortado s1)
                       (procesadas s1 ++ [(linea, r)]))).
        { da_paso Hab1 H1. rewrite Ho. reflexivity. }
        rewrite E2. unfold paso. simpl. rewrite Hab1.
        rewrite list_lookup_insert_eq
          by (rewrite E1; simpl; rewrite length_insert; exact Hi).
        rewrite E1. simpl. rewrite !list_insert_insert_eq.
        rewrite (list_insert_id _ _ _ Hh). auto.
      - exists [ev_de r i]. eexists. split; [reflexivity |].
        change (ejecutar [ev_de r i] s1) with (paso s1 (ev_de r i)).
        da_paso Hab1 H1. rewrite Ho. rewrite E1. simpl.
        rewrite !list_insert_insert_eq.
        rewrite (list_insert_id _ _ _ Hh). auto. }
    destruct Hsig as (evs2 & s2 & -> & Eh & Ec & Ea).
    destruct (IH (ejecutar evs2 s1)) as [evs3 Hevs3].
    + rewrite Eh. exact Hh.
    + exact Ec.
    + exact Ea.
    + eauto.
    + exists (ev_de r i :: evs2 ++ evs3).
      change (ejecutar (ev_de r i :: evs2 ++ evs3) s)
        with (ejecutar (evs2 ++ evs3) s1).
      rewrite ejecutar_app. exact Hevs3.
Qed.

(** With the queue empty and [terminado] set, a thread leaves its loop in
    three steps: failed [pop], [terminado], [empty]. *)
Lemma fase_salida (r : Reloj) i s :
  hilos s !! i = Some Pop -> cola s = [] -> terminado s = true ->
  abortado s = false ->
  forma (ejecutar [ev_de r i; ev_de r i; ev_de r i] s) =
  mk_Forma (<[i := Fuera]> (hilos s)) (single s) [] true false.
Proof.
  intros Hh Hc Ht Hab.
  assert (Hi : (i < length (hilos s))%nat) by (eapply lookup_lt_Some; eauto).
  set (s1 := paso s (ev_de r i)).
  assert (E1 : s1 = con_hilo i LoadTerminado s).
  { unfold s1. da_paso Hab Hh. rewrite Hc. reflexivity. }
  set (s2 := paso s1 (ev_de r i)).
  assert (E2 : s2 = con_hilo i Empty s1).
  { unfold s2, paso. rewrite E1. simpl. rewrite Hab.
    rewrite list_lookup_insert_eq by exact Hi. rewrite Ht. reflexivity. }
  change (ejecutar [ev_de r i; ev_de r i; ev_de r i] s)
    with (paso s2 (ev_de r i)).
  unfold paso. rewrite E2, E1. simpl. rewrite Hab.
  rewrite list_lookup_insert_eq by (rewrite length_insert; exact Hi).
  rewrite Hc. unfold forma. simpl.
  rewrite !list_insert_insert_eq, Hc, Ht, Hab. reflexivity.
Qed.

(** The threads that arrive once the single block is taken skip it and
    leave as well. *)
Lemma fase_resto (r : Reloj) k : forall j s,
  hilos s = replicate j Fuera ++ replicate k EnSingle ->
  single s = true -> cola s = [] -> terminado s = true ->
  abortado s = false ->
  exists evs,
    forma (ejecutar evs s) =
    mk_Forma (replicate (j + k) Fuera) true [] true false.
Proof.
  induction k as [| k IH]; intros j s Hh Hs Hc Ht Hab.
  - exists []. unfold forma. simpl in *.
    rewrite Hh, Hs, Hc, Ht, Hab, app_nil_r, Nat.add_0_r. reflexivity.
  - assert (Hj : hilos s !! j = Some EnSingle).
    { rewrite Hh. rewrite lookup_app_r by (rewrite length_replicate; lia).
      rewrite length_replicate, Nat.sub_diag. reflexivity. }
    assert (Hi : (j < length (hilos s))%nat) by (eapply lookup_lt_Some; eauto).
    set (s1 := paso s (ev_de r j)).
    assert (E1 : s1 = con_hilo j Pop s).
    { unfold s1. da_paso Hab Hj. rewrite Hs. reflexivity. }
    assert (Hsal : forma (ejecutar [ev_de r j; ev_de r j; ev_de r j] s1) =
                   mk_Forma (<[j := Fuera]> (hilos s1)) (single s1) [] true false).
    { apply fase_salida; rewrite E1; simpl; try assumption.
      apply list_lookup_insert_eq. exact Hi. }
    apply forma_eq in Hsal as (Eh & Es & Ec & Et & Ea).
    assert (Eh1 : hilos s1 = <[j := Pop]> (hilos s)) by (rewrite E1; reflexivity).
    assert (Es1 : single s1 = single s) by (rewrite E1; reflexivity).
    rewrite Eh1, list_insert_insert_eq in Eh. rewrite Es1 in Es.
    destruct (IH (S j) (ejecutar [ev_de r j; ev_de r j; ev_de r j] s1))
      as [evs Hevs]; try assumption.
    + rewrite Eh, Hh.
      rewrite insert_app_r_alt by (rewrite length_replicate; lia).
      rewrite length_replicate, Nat.sub_diag. simpl.
      clear. induction j as [| j IHj]; simpl; [reflexivity |].
      rewrite IHj. reflexivity.
    + rewrite Es. exact Hs.
    + exists (ev_de r j :: [ev_de r j; ev_de r j; ev_de r j] ++ evs).
      change (ejecutar (ev_de r j :: [ev_de r j; ev_de r j; ev_de r j] ++ evs) s)
        with (ejecutar ([ev_de r j; ev_de r j; ev_de r j] ++ evs) s1).
      rewrite ejecutar_app, Hevs.
      replace (j + S k)%nat with (S j + k)%nat by lia. reflexivity.
Qed.

Lemma region_terminada_forma s n :
  forma s = mk_Forma (replicate n Fuera) true [] true false ->
  region_terminada s = true.
Proof.
  intros H. apply forma_eq in H as (Eh & _).
  unfold region_terminada. rewrite Eh. clear.
  induction n as [| n IH]; simpl; [reflexivity | exact IH].
Qed.

(** X18. The region can end: for every file none of whose lines makes
    [calcular] throw on the date of the clock, and every number of threads
    from one up, there is an execution in which every thread leaves its
    loop (the first thread reads the whole file, sets [terminado] and
    drains the queue, the others find the queue empty). *)
Theorem existe_ejecucion_normal (r : Reloj) n :
  (0 < n)%nat ->
  (forall linea, linea ∈ lineas -> exists o, clave_de_linea r linea = Ok o) ->
  exists evs, region_terminada (ejecutar evs (inicial n)) = true.
Proof.
  intros Hn Hok.
  destruct (fase_inicio r n Hn) as [evs1 H1].
  apply forma_eq in H1 as (Eh1 & Es1 & Ec1 & Et1 & Ea1).
  set (s1 := ejecutar evs1 (inicial n)) in *.
  assert (Hp : hilos s1 !! 0%nat = Some Pop).
  { rewrite Eh1. apply list_lookup_insert_eq. rewrite length_replicate. exact Hn. }
  destruct (fase_consumo r 0 lineas s1 Hp Ec1 Ea1 Hok) as [evs2 H2].
  apply forma_eq in H2 as (Eh2 & Es2 & Ec2 & Et2 & Ea2).
  set (s2 := ejecutar evs2 s1) in *.
  assert (Hp2 : hilos s2 !! 0%nat = Some Pop) by (rewrite Eh2; exact Hp).
  pose proof (fase_salida r 0 s2 Hp2 Ec2 (eq_trans Et2 Et1) Ea2) as H3.
  apply forma_eq in H3 as (Eh3 & Es3 & Ec3 & Et3 & Ea3).
  set (s3 := ejecutar [ev_de r 0; ev_de r 0; ev_de r 0] s2) in *.
  destruct (fase_resto r (n - 1) 1 s3) as [evs4 H4]; try assumption.
  - rewrite Eh3, Eh2, Eh1, list_insert_insert_eq.
    destruct n as [| n]; [lia |]. simpl. rewrite Nat.sub_0_r. reflexivity.
  - rewrite Es3, Es2. exact Es1.
  - exists (evs1 ++ evs2 ++ [ev_de r 0; ev_de r 0; ev_de r 0] ++ evs4).
    rewrite !ejecutar_app. fold s1. fold s2. fold s3.
    eapply region_terminada_forma. exact H4.
Qed.

(** X19. A single line that is not empty and that the parser rejects is
    enough for an execution that ends in [std::terminate]: the exception of
    [calcular] leaves the consumer loop uncaught. *)
Theorem existe_ejecucion_abortada (r : Reloj) n linea e :
  (0 < n)%nat -> linea ∈ lineas -> linea <> EmptyString ->
  parsear_fecha_iso linea = Lanza e ->
  exists evs, abortado (ejecutar evs (inicial n)) = true.
Proof.
  intros Hn Hin Hne Hpar.
  assert (He : clave_de_linea r linea = Lanza e).
  { unfold clave_de_linea.
    destruct (String.eqb_spec linea EmptyString) as [-> | _]; [congruence |].
    rewrite (proj2 (calcular_fallo r linea e) Hpar). reflexivity. }
  destruct (fase_inicio r n Hn) as [evs1 H1].
  apply forma_eq in H1 as (Eh1 & Es1 & Ec1 & Et1 & Ea1).
  set (s1 := ejecutar evs1 (inicial n)) in *.
  assert (Hp : hilos s1 !! 0%nat = Some Pop).
  { rewrite Eh1. apply list_lookup_insert_eq. rewrite length_replicate. exact Hn. }
  destruct (fase_consumo_aborta r 0 lineas s1 Hp Ec1 Ea1) as [evs2 H2];
    [eauto |].
  exists (evs1 ++ evs2). rewrite ejecutar_app. exact H2.
Qed.

(** *** The file that cannot be opened *)

Definition mensaje_error : string :=
  ("No se pudo abrir: " ++ ruta ++ String "010" EmptyString)%string.

Definition abriendo (h : Hilo) : nat :=
  match h with AbrirArchivo => 1 | _ => 0 end.

(** The diagnostic is written once, by the thread of the single block, and
    only when the file cannot be opened. *)
Definition inv_cerr (s : Estado) : Prop :=
  cerr s =
    match archivo with
    | Some _ => []
    | None =>
        if single s && Nat.eqb (sum_list_with abriendo (hilos s)) 0
        then [mensaje_error] else []
    end.

(** A key is in the map only if some processed line was counted for it. *)
Definition inv_dom (s : Estado) : Prop :=
  forall k v, mapa s !! k = Some v ->
    exists p, p ∈ procesadas s /\ clave_de_linea (snd p) (fst p) = Ok (Some k).

Lemma inv_dom_inicial n : inv_dom (inicial n).
Proof. intros k v. simpl. rewrite lookup_empty. discriminate. Qed.

Lemma inv_dom_paso s ev : inv_dom s -> inv_dom (paso s ev).
Proof.
  unfold inv_dom, paso. intros H.
  destruct (abortado s); [exact H |].
  destruct (hilos s !! ev_hilo ev) as [h |]; [| exact H].
  destruct h as [| | [| linea resto] | p resto | | | fecha | clave | | | |];
    repeat match goal with
    | |- forall _ _, mapa (if ?b then _ else _) !! _ = _ -> _ => destruct b eqn:?
    | |- forall _ _, mapa (match ?b with _ => _ end) !! _ = _ -> _ =>
        destruct b eqn:?
    end; simpl; try exact H.
  - (* Procesar, counted *)
    intros k v Hk. unfold try_emplace in Hk.
    destruct (mapa s !! z) eqn:E.
    + destruct (H _ _ Hk) as (q & Hq & Hc). exists q. split; [| exact Hc].
      apply elem_of_app. left. exact Hq.
    + apply lookup_insert_Some in Hk as [[<- _] | [_ Hk]].
      * exists (fecha, ev_reloj ev). split; [| assumption].
        apply elem_of_app. right. apply list_elem_of_here.
      * destruct (H _ _ Hk) as (q & Hq & Hc). exists q. split; [| exact Hc].
        apply elem_of_app. left. exact Hq.
  - (* Procesar, not counted *)
    intros k v Hk. destruct (H _ _ Hk) as (q & Hq & Hc). exists q.
    split; [| exact Hc]. apply elem_of_app. left. exact Hq.
  - (* Visit *)
    intros k v Hk. unfold visit_incrementa in Hk. rewrite lookup_alter in Hk.
    destruct (decide (clave = k)) as [<- | Hne]; [| eauto].
    destruct (mapa s !! clave) as [w |] eqn:E; [eauto | discriminate].
Qed.

Lemma inv_cerr_inicial n : inv_cerr (inicial n).
Proof. unfold inv_cerr. simpl. destruct archivo; reflexivity. Qed.

Lemma inv_cerr_paso s ev : InvControl s -> inv_cerr s -> inv_cerr (paso s ev).
Proof.
  intros [H1 H2 _ _ _ _] H. unfold inv_cerr, paso in *.
  destruct (abortado s); [exact H |].
  destruct (hilos s !! ev_hilo ev) as [h |] eqn:Hh; [| exact H].
  pose proof (fun h' => sum_list_with_insert abriendo (hilos s) (ev_hilo ev)
                          h h' Hh) as Hins.
  assert (Higual : forall h', abriendo h = 0%nat -> abriendo h' = 0%nat ->
            sum_list_with abriendo (<[ev_hilo ev := h']> (hilos s))
            = sum_list_with abriendo (hilos s)).
  { intros h' E E'. specialize (Hins h'). lia. }
  destruct h as [| | [| linea resto] | p resto | | | fecha | clave | | | |];
    repeat match goal with
    | |- cerr (if ?b then _ else _) = _ => destruct b eqn:?
    | |- cerr (match ?b with _ => _ end) = _ => destruct b eqn:?
    end; simpl; rewrite ?Higual by reflexivity;
    try match goal with E : single s = _ |- _ => rewrite ?E end;
    try exact H.
  - (* EnSingle takes the single block *)
    rewrite H. destruct archivo; [reflexivity |]. simpl.
    specialize (Hins AbrirArchivo). simpl in Hins.
    destruct (Nat.eqb_spec (sum_list_with abriendo
                (<[ev_hilo ev := AbrirArchivo]> (hilos s))) 0); [lia |].
    reflexivity.
  - (* AbrirArchivo, the file does not open *)
    rewrite H. rewrite (H1 _ _ Hh eq_refl). simpl.
    assert (Hcero : sum_list_with abriendo
                      (<[ev_hilo ev := StoreTerminado]> (hilos s)) = 0%nat).
    { apply sum_list_with_cero. intros j h Hj.
      apply list_lookup_insert_Some in Hj.
      destruct Hj as [(_ & <- & _) | (Hne & Hj)]; [reflexivity |].
      destruct h; try reflexivity.
      specialize (H2 _ _ _ _ Hh Hj eq_refl eq_refl). congruence. }
    specialize (Hins StoreTerminado). simpl in Hins.
    rewrite Hcero in *. simpl.
    destruct (Nat.eqb_spec (sum_list_with abriendo (hilos s)) 0); [lia |].
    reflexivity.
Qed.

Lemma alcanzable_dom n evs : inv_dom (ejecutar evs (inicial n)).
Proof.
  apply ejecutar_inv; [intros; apply inv_dom_paso; assumption |].
  apply inv_dom_inicial.
Qed.

Lemma alcanzable_cerr n evs : inv_cerr (ejecutar evs (inicial n)).
Proof.
  assert (H : InvControl (ejecutar evs (inicial n))
              /\ inv_cerr (ejecutar evs (inicial n))).
  { apply (ejecutar_inv (fun s => InvControl s /\ inv_cerr s)).
    - intros s ev [Hc He]. split;
        [apply inv_control_paso | apply inv_cerr_paso]; assumption.
    - split; [apply inv_control_inicial | apply inv_cerr_inicial]. }
  apply H.
Qed.

(** X20. The diagnostic on [std::cerr]: with a file that opens nothing is
    ever written; with a file that does not open, no line is ever queued or
    processed and the map stays empty, the message is written at most
    once, and when the region ends it has been written exactly once and
    [std::terminate] was not called. *)
Theorem diagnostico_de_apertura n evs :
  let s := ejecutar evs (inicial n) in
  (forall ls, archivo = Some ls -> cerr s = [])
  /\ (archivo = None ->
      mapa s = ∅ /\ cola s = [] /\ procesadas s = []
      /\ (cerr s = [] \/ cerr s = [mensaje_error])
      /\ ((0 < n)%nat -> region_terminada s = true ->
          cerr s = [mensaje_error] /\ abortado s = false)).
Proof.
  intros s.
  pose proof (alcanzable_cerr n evs) as Hcerr. fold s in Hcerr.
  unfold inv_cerr in Hcerr.
  split.
  - intros ls Ha. rewrite Ha in Hcerr. exact Hcerr.
  - intros Ha. rewrite Ha in Hcerr.
    pose proof (alcanzable_lineas n evs) as Hlin. fold s in Hlin.
    unfold inv_lineas, lineas in Hlin. rewrite Ha in Hlin. simpl in Hlin.
    apply Permutation_nil_r in Hlin.
    apply app_eq_nil in Hlin as [Hp Hq].
    assert (Hproc : procesadas s = []).
    { destruct (procesadas s); [reflexivity | discriminate]. }
    unfold por_hacer in Hq.
    apply app_eq_nil in Hq as [_ Hq]. apply app_eq_nil in Hq as [_ Hcola].
    assert (Hmapa : mapa s = ∅).
    { apply map_empty. intros k.
      destruct (mapa s !! k) as [v |] eqn:E; [| reflexivity].
      destruct (alcanzable_dom n evs k v E) as (p & Hin & _).
      fold s in Hin. rewrite Hproc in Hin.
      apply elem_of_nil in Hin. contradiction. }
    repeat split; try assumption.
    + destruct (single s && _); [right | left]; exact Hcerr.
    + pose proof (alcanzable_control n evs) as [_ _ H3 _ H5 _].
      pose proof (alcanzable_hilos n evs) as Hlen.
      fold s in H3, H5, Hlen.
      pose proof (region_terminada_fuera s) as Hf.
      assert (Hz : sum_list_with abriendo (hilos s) = 0%nat).
      { apply sum_list_with_cero. intros j h Hj.
        rewrite (Hf j h H0 Hj). reflexivity. }
      destruct (hilos s) as [| h0 hs] eqn:Hh; [simpl in Hlen; lia |].
      pose proof (Hf 0%nat h0 H0 eq_refl) as ->.
      destruct (H5 0%nat eq_refl) as [Ht _].
      destruct (H3 Ht) as [Hs _].
      rewrite Hs, Hz in Hcerr. exact Hcerr.
    + pose proof (alcanzable_control n evs) as [_ _ _ _ _ H6].
      fold s in H6.
      destruct (abortado s) eqn:Hab; [| reflexivity].
      destruct (H6 eq_refl) as (i & f & Hi).
      pose proof (region_terminada_fuera s i _ H0 Hi). discriminate.
Qed.

End Region.

(** *** A concrete run: two threads, round robin, on 1 November 2024 *)

Definition ejemplo_archivo : option (list string) :=
  Some ["2004-11-01"; ""; "2004-11-01"; "1990-01-01"]%string.

Definition hoy_ejemplo : Reloj := reloj_utc 1730419200.

Definition turnos (n k : nat) : list Evento :=
  map (fun j => mk_Evento (j mod n) true hoy_ejemplo) (seq 0 k).

Lemma turnos_mismo_dia n k :
  Forall (fun ev => mismo_dia hoy_ejemplo (ev_reloj ev)) (turnos n k).
Proof.
  unfold turnos. apply Forall_forall. intros ev Hin.
  apply list_elem_of_In, in_map_iff in Hin as (j & <- & _). simpl.
  repeat split; reflexivity.
Qed.

Lemma region_terminada_conserva_witness :
  let s := ejecutar "datos.csv" ejemplo_archivo (turnos 2 60) (inicial 2) in
  abortado s = false /\ cola s = []
  /\ map fst (procesadas s) ≡ₚ lineas ejemplo_archivo
  /\ forall k,
       ocurrencias k s = Z.of_nat (sum_list_with (cuenta_en k) (procesadas s)).
Proof.
  refine (region_terminada_conserva "datos.csv" ejemplo_archivo _ 2
            (turnos 2 60) _ _).
  - vm_compute. reflexivity.
  - lia.
  - vm_compute. reflexivity.
Defined.

Lemma region_terminada_histograma_witness :
  ocurrencias 20
    (ejecutar "datos.csv" ejemplo_archivo (turnos 2 60) (inicial 2))
  = 2.
Proof.
  refine (region_terminada_histograma "datos.csv" ejemplo_archivo _ 2
            (turnos 2 60) hoy_ejemplo _ _ _ 20).
  - vm_compute. reflexivity.
  - lia.
  - apply turnos_mismo_dia.
  - vm_compute. reflexivity.
Defined.

Lemma linea_rechazada_no_termina_witness :
  region_terminada
    (ejecutar "datos.csv" (Some ["2004-11-01"; "not-a-date"]%string)
       (turnos 3 60) (inicial 3)) = false.
Proof.
  refine (linea_rechazada_no_termina "datos.csv"
            (Some ["2004-11-01"; "not-a-date"]%string) 3 (turnos 3 60)
            "not-a-date" formato_invalido _ _ _ _).
  - lia.
  - unfold lineas. simpl. apply list_elem_of_further, list_elem_of_here.
  - discriminate.
  - reflexivity.
Defined.

Lemma salida_del_bucle_witness :
  let s := ejecutar "datos.csv" ejemplo_archivo (turnos 2 60) (inicial 2) in
  terminado s = true /\ cola s = [] /\ single s = true
  /\ forall j h, hilos s !! j = Some h -> produce h = false.
Proof.
  refine (proj1 (salida_del_bucle "datos.csv" ejemplo_archivo 2 (turnos 2 60))
            1%nat _).
  vm_compute. reflexivity.
Defined.

Lemma existe_ejecucion_normal_witness :
  exists evs,
    region_terminada
      (ejecutar "datos.csv" ejemplo_archivo evs (inicial 2)) = true.
Proof.
  refine (existe_ejecucion_normal "datos.csv" ejemplo_archivo hoy_ejemplo 2
            _ _).
  - lia.
  - intros linea Hin. unfold lineas, ejemplo_archivo in Hin. simpl in Hin.
    repeat (apply elem_of_cons in Hin as [-> | Hin]).
    all: try (apply elem_of_nil in Hin; contradiction).
    all: eexists; vm_compute; reflexivity.
Defined.

Lemma existe_ejecucion_abortada_witness :
  exists evs,
    abortado
      (ejecutar "datos.csv" (Some ["2004-11-01"; "not-a-date"]%string) evs
         (inicial 3)) = true.
Proof.
  refine (existe_ejecucion_abortada "datos.csv"
            (Some ["2004-11-01"; "not-a-date"]%string) hoy_ejemplo 3
            "not-a-date" formato_invalido _ _ _ _).
  - lia.
  - unfold lineas. simpl. apply list_elem_of_further, list_elem_of_here.
  - discriminate.
  - reflexivity.
Defined.

Lemma diagnostico_de_apertura_witness :
  let s := ejecutar "no-existe.csv" None (turnos 3 60) (inicial 3) in
  cerr s = [mensaje_error "no-existe.csv"] /\ abortado s = false.
Proof.
  refine (proj2 (proj2 (proj2 (proj2
            (proj2 (diagnostico_de_apertura "no-existe.csv" None 3
                      (turnos 3 60)) eq_refl)))) _ _).
  - lia.
  - vm_compute. reflexivity.
Defined.

End MainCola.
